(** * obsidian_to_JSONLS: front-matter to SKOS graph, verified model

    A shallow embedding of [src/obsidian_to_JSONLS.py].

    Conventions.
    - A Python [str] is represented by the [string] of its UTF-8 bytes.
      Every pattern the program looks for (brackets, bar, space) is ASCII,
      so searching and replacing on bytes and on code points agree, and
      [urllib.parse.quote] works on the UTF-8 bytes anyway.
    - A Python exception is an explicit [Raise] result.
    - The graph library, the front-matter parser and Python's value
      formatting are collaborators whose code is not part of the program;
      what the program needs from them is either modelled visibly below or
      taken as a [Variable] of a section. *)

From Stdlib Require Import ZArith Ascii String List Lia.
From stdpp Require Import base option list strings gmap.

Local Open Scope string_scope.
Local Open Scope list_scope.

(* Let [simpl] compute concatenations of string literals. *)
#[local] Arguments String.append !_ _ / : simpl nomatch.

(** ** Configuration *)

Definition BASE_URI : string := "http://example.org/kb/".
Definition LANG : string := "en".

(** ** Characters and strings *)

(** The double-quote character, spelled by its code. *)
Definition dquote : ascii := "034"%char.

Definition str1 (c : ascii) : string := String c EmptyString.

(** [starts_with p s]: [s.startswith(p)]. *)
Fixpoint starts_with (p s : string) : bool :=
  match p, s with
  | EmptyString, _ => true
  | String a p', String b s' => Ascii.eqb a b && starts_with p' s'
  | String _ _, EmptyString => false
  end.

(** [str.replace(old, new)] for a non-empty [old]: scan from the left;
    where [old] starts, emit [new] and resume after the occurrence
    ([skip] counts the characters of the occurrence still to be passed
    over), otherwise copy one character. *)
Fixpoint replace_from (old new : string) (skip : nat) (s : string) : string :=
  match s with
  | EmptyString => EmptyString
  | String c t =>
      match skip with
      | S k => replace_from old new k t
      | O =>
          if starts_with old s
          then new +:+ replace_from old new (String.length old - 1) t
          else String c (replace_from old new 0 t)
      end
  end.

Definition str_replace (old new s : string) : string :=
  replace_from old new 0 s.

(** [s in text] for a one-character [s]. *)
Fixpoint has_char (c : ascii) (s : string) : bool :=
  match s with
  | EmptyString => false
  | String a t => Ascii.eqb a c || has_char c t
  end.

Fixpoint str_forall (p : ascii → bool) (s : string) : bool :=
  match s with
  | EmptyString => true
  | String a t => p a && str_forall p t
  end.

(** ** [urllib.parse.quote] with its default [safe='/'] *)

Definition in_range (lo hi : nat) (c : ascii) : bool :=
  (lo <=? nat_of_ascii c)%nat && (nat_of_ascii c <=? hi)%nat.

(** Letters, digits and [_.-~] are always safe; [/] is safe by default. *)
Definition is_safe (c : ascii) : bool :=
  in_range 65 90 c || in_range 97 122 c || in_range 48 57 c
  || Ascii.eqb c "_" || Ascii.eqb c "." || Ascii.eqb c "-"
  || Ascii.eqb c "~" || Ascii.eqb c "/".

Definition hex_digit (n : nat) : ascii :=
  if (n <? 10)%nat then ascii_of_nat (48 + n) else ascii_of_nat (55 + n).

(** ['%{:02X}'.format(b)] *)
Definition percent_byte (c : ascii) : string :=
  String "%" (String (hex_digit (nat_of_ascii c / 16))
                (String (hex_digit (nat_of_ascii c mod 16)) EmptyString)).

Definition quote_byte (c : ascii) : string :=
  if is_safe c then str1 c else percent_byte c.

Fixpoint quote (s : string) : string :=
  match s with
  | EmptyString => EmptyString
  | String c t => quote_byte c +:+ quote t
  end.

(** ** YAML values, as the front-matter parser hands them over *)

#[warnings="-register-all"]
Inductive yaml : Type :=
  | YNull
  | YBool (b : bool)
  | YInt (z : Z)
  | YStr (s : string)
  | YList (items : list yaml)
  | YMap (entries : list (string * yaml)).

(** Python truthiness ([if value:], [not value]). *)
Definition truthy (v : yaml) : bool :=
  match v with
  | YNull => false
  | YBool b => b
  | YInt z => negb (z =? 0)%Z
  | YStr s => negb (String.eqb s EmptyString)
  | YList l => match l with [] => false | _ => true end
  | YMap m => match m with [] => false | _ => true end
  end.

(** ** Graph terms *)

(** A term records the constructor the program called and the value it
    passed; two terms are the same node when both agree.  For strings
    this is the library's own comparison.  For a literal made from a
    value that is not a string the library compares what it converts the
    value to, so statements about which literals coincide are made for
    strings only. *)
Inductive node : Type :=
  | URIRef (value : yaml)
  | Literal (value : yaml) (lang : string).

Inductive predicate : Type :=
  | RDF_type
  | SKOS_prefLabel
  | SKOS_altLabel
  | SKOS_definition
  | SKOS_scopeNote
  | SKOS_broader
  | SKOS_narrower
  | SKOS_related
  | SKOS_exactMatch.

Definition SKOS_Concept : node :=
  URIRef (YStr "http://www.w3.org/2004/02/skos/core#Concept").

Abbreviation triple := (node * predicate * node)%type.

(** ** [clean_uri] *)

Definition strip_brackets (label : string) : string :=
  str_replace "]]" EmptyString (str_replace "[[" EmptyString label).

Definition uri_suffix (label : string) : string :=
  quote (str_replace " " "-" (strip_brackets label)).

Definition clean_uri (label : string) : node :=
  URIRef (YStr (BASE_URI +:+ uri_suffix label)).

(** ** Exceptions *)

Inductive exn : Type :=
  | TypeError
  | YAMLError
  | OSError
  | UnicodeEncodeError.

Inductive result (A : Type) : Type :=
  | Ok (a : A)
  | Raise (e : exn).
Arguments Ok {A} a.
Arguments Raise {A} e.

#[global] Instance result_bind : MBind result :=
  λ A B k r, match r with Ok a => k a | Raise e => Raise e end.

#[global] Instance result_ret : MRet result := @Ok.

(** ** The link pattern [\[\[([^\|\]]+)(\|[^\]]+)?\]\]] *)

(** [[^\|\]]]: what a link name is made of. *)
Definition name_char (c : ascii) : bool :=
  negb (Ascii.eqb c "|") && negb (Ascii.eqb c "]").

(** [[^\]]]: what a display alias is made of. *)
Definition alias_char (c : ascii) : bool :=
  negb (Ascii.eqb c "]").

(** Longest prefix of [s] made of characters satisfying [p], and the rest:
    what a greedy [p+] consumes. *)
Fixpoint span (p : ascii → bool) (s : string) : string * string :=
  match s with
  | EmptyString => (EmptyString, EmptyString)
  | String c t =>
      if p c
      then let '(taken, rest) := span p t in (String c taken, rest)
      else (EmptyString, s)
  end.

Definition is_empty (s : string) : bool :=
  match s with EmptyString => true | String _ _ => false end.

(** [s[len(p):]] when [s] starts with [p]: a literal of the pattern. *)
Fixpoint strip_prefix (p s : string) : option string :=
  match p, s with
  | EmptyString, _ => Some s
  | String a p', String b s' =>
      if Ascii.eqb a b then strip_prefix p' s' else None
  | String _ _, EmptyString => None
  end.

(** The optional group [(\|[^\]]+)?] and the closing [\]\]] after it:
    the text after the closing brackets. *)
Definition match_alias_close (r1 : string) : option string :=
  r2 ← strip_prefix "|" r1;
  let '(alias, r3) := span alias_char r2 in
  if is_empty alias then None else strip_prefix "]]" r3.

(** The pattern anchored at the start of [s]; the result is group 1.
    Each repetition is greedy and what follows it cannot start with a
    character of its class, so giving characters back never leads to a
    match and the longest run is the only candidate.  The optional group
    is tried first, then skipped. *)
Definition match_here (s : string) : option string :=
  r ← strip_prefix "[[" s;
  let '(name, r1) := span name_char r in
  if is_empty name then None
  else
    match match_alias_close r1 with
    | Some _ => Some name
    | None => _ ← strip_prefix "]]" r1; Some name
    end.

(** [re.search(pattern, item)] followed by [match.group(1)]: the leftmost
    position where the pattern matches. *)
Fixpoint re_search (s : string) : option string :=
  match match_here s with
  | Some name => Some name
  | None =>
      match s with
      | EmptyString => None
      | String _ t => re_search t
      end
  end.

(** ** [parse_links] *)

(** One turn of the loop, on an item that is a [str]. *)
Definition link_name (item : string) : string :=
  match re_search item with
  | Some name => name
  | None => item
  end.

(** One turn of the loop: [re.search] raises [TypeError] on anything that
    is not a string. *)
Definition parse_item (item : yaml) : result string :=
  match item with
  | YStr s => Ok (link_name s)
  | _ => Raise TypeError
  end.

(** The loop [for item in items: ...]; it stops at the first exception. *)
Fixpoint parse_items (items : list yaml) : result (list string) :=
  match items with
  | [] => Ok []
  | item :: rest =>
      link ← parse_item item;
      links ← parse_items rest;
      Ok (link :: links)
  end.

Definition parse_links (value : yaml) : result (list string) :=
  if negb (truthy value) then Ok []
  else
    match value with
    | YStr s => parse_items [value]
    | YList items => parse_items items
    | _ => Ok []
    end.

(** ** Equality of values, terms and triples *)

Definition yaml_eq_dec : ∀ a b : yaml, {a = b} + {a ≠ b}.
Proof.
  fix IH 1.
  decide equality.
  - apply Bool.bool_dec.
  - apply Z.eq_dec.
  - apply String.string_dec.
  - apply (List.list_eq_dec IH).
  - apply List.list_eq_dec. decide equality. apply String.string_dec.
Defined.

#[global] Instance yaml_eq : EqDecision yaml := yaml_eq_dec.

#[global] Instance node_eq : EqDecision node.
Proof. solve_decision. Defined.

#[global] Instance predicate_eq : EqDecision predicate.
Proof. solve_decision. Defined.

(** ** The graph *)

(** The graph under construction: its triples, in order of first
    insertion. *)
Abbreviation graph := (list triple).

(** [Graph()] *)
Definition Graph : graph := [].

(** Modelled from the spec: [Graph.add] belongs to the graph library,
    which is not part of the program's sources.  The spec calls the graph
    a triple set accumulated by sequential insertions: inserting a triple
    that is already there changes nothing. *)
Definition add (g : graph) (t : triple) : graph :=
  if decide (t ∈ g) then g else g ++ [t].

(** [for x in xs: g.add(mk(x))] *)
Definition add_each {A : Type} (mk : A → triple) (g : graph) (xs : list A) : graph :=
  foldl (λ g x, add g (mk x)) g xs.

(** ** The loaded document *)

(** [post.get(key)]: [None] for a missing key. *)
Definition post_get (post : gmap string yaml) (key : string) : yaml :=
  default YNull (post !! key).

(** [post.get(key, fallback)] *)
Definition post_get_or (post : gmap string yaml) (key : string) (fallback : yaml) : yaml :=
  default fallback (post !! key).

(** [x if isinstance(x, list) else [x]] *)
Definition as_list (v : yaml) : list yaml :=
  match v with
  | YList items => items
  | _ => [v]
  end.

(** [if v: ... v if isinstance(v, list) else [v] ...]: the items the
    [aliases] and [exactMatch] loops run over. *)
Definition items_if_truthy (v : yaml) : list yaml :=
  if truthy v then as_list v else [].

(** ** File names *)

(** [os.path.basename] *)
Fixpoint basename (p : string) : string :=
  match p with
  | EmptyString => EmptyString
  | String c t =>
      if has_char "/" t then basename t
      else if Ascii.eqb c "/" then t else p
  end.

(** [p[:p.rfind('.')]], or [p] when it has no dot. *)
Fixpoint before_last_dot (p : string) : string :=
  match p with
  | EmptyString => EmptyString
  | String c t =>
      if has_char "." t then String c (before_last_dot t)
      else if Ascii.eqb c "." then EmptyString else p
  end.

(** [os.path.splitext(p)[0]] for a name without separator: the extension
    starts at the last dot, unless only dots precede it. *)
Definition splitext_root (p : string) : string :=
  let root := before_last_dot p in
  if has_char "." p && negb (str_forall (Ascii.eqb ".") root) then root else p.

Definition filename_of (file_path : string) : string :=
  splitext_root (basename file_path).

(** ** The page *)

(** [''.join(pieces)] *)
Definition join (pieces : list string) : string :=
  foldr String.append EmptyString pieces.

Definition dq : string := str1 dquote.
Definition nl : string := str1 "010"%char.

(** One item of [make_list]:
    [<li><a href=(quote)target.html(quote)>name</a></li>]. *)
Definition list_item (l : string) : string :=
  join ["<li><a href="; dq; str_replace " " "-" l; ".html"; dq; ">"; l; "</a></li>"].

Definition make_list (links : list string) : string :=
  match links with
  | [] => "<li>None</li>"
  | _ => join (map list_item links)
  end.

(** The pieces of the page template, in order; the holes are the
    arguments. *)
Definition html_pieces (filename_raw jsonld_data definition_text : string)
    (broader_links narrower_links related_links : list string)
    (external_href external_text : string) : list string :=
    [nl;
     "<!DOCTYPE html>"; nl;
     "<html lang="; dq; "en"; dq; ">"; nl;
     "<head>"; nl;
     "    <meta charset="; dq; "UTF-8"; dq; ">"; nl;
     "    <title>"; filename_raw; " (SKOS)</title>"; nl;
     "    <style>"; nl;
     "        body { font-family: 'Segoe UI', sans-serif; max-width: 700px; margin: 2rem auto; background: #f4f4f4; }"; nl;
     "        .card { background: white; padding: 30px; border-radius: 8px; box-shadow: 0 2px 5px rgba(0,0,0,0.1); }"; nl;
     "        h1 { margin-top: 0; color: #2c3e50; border-bottom: 2px solid #eee; padding-bottom: 10px; }"; nl;
     "        .tag { background: #e1ecf4; color: #39739d; padding: 2px 6px; border-radius: 4px; font-size: 0.9em; }"; nl;
     "        .section { margin-top: 20px; }"; nl;
     "        .section h3 { font-size: 0.9rem; text-transform: uppercase; color: #888; margin-bottom: 5px; }"; nl;
     "        ul { list-style: none; padding: 0; }"; nl;
     "        li { margin-bottom: 5px; }"; nl;
     "        a { text-decoration: none; color: #0366d6; }"; nl;
     "        a:hover { text-decoration: underline; }"; nl;
     "    </style>"; nl;
     "    <script type="; dq; "application/ld+json"; dq; ">"; nl;
     "    "; jsonld_data; nl;
     "    </script>"; nl;
     "</head>"; nl;
     "<body>"; nl;
     "    <div class="; dq; "card"; dq; ">"; nl;
     "        <h1>"; filename_raw; "</h1>"; nl;
     "        "; nl;
     "        <div class="; dq; "section"; dq; ">"; nl;
     "            <h3>Definition</h3>"; nl;
     "            <p>"; definition_text; "</p>"; nl;
     "        </div>"; nl;
     nl;
     "        <div style="; dq; "display: flex; gap: 20px;"; dq; ">"; nl;
     "            <div class="; dq; "section"; dq; " style="; dq; "flex:1"; dq; ">"; nl;
     "                <h3>⬆ Broader (Parent)</h3>"; nl;
     "                <ul>"; make_list broader_links; "</ul>"; nl;
     "            </div>"; nl;
     "            <div class="; dq; "section"; dq; " style="; dq; "flex:1"; dq; ">"; nl;
     "                <h3>⬇ Narrower (Children)</h3>"; nl;
     "                <ul>"; make_list narrower_links; "</ul>"; nl;
     "            </div>"; nl;
     "        </div>"; nl;
     nl;
     "        <div class="; dq; "section"; dq; ">"; nl;
     "            <h3>↔ Related</h3>"; nl;
     "            <ul>"; make_list related_links; "</ul>"; nl;
     "        </div>"; nl;
     "        "; nl;
     "        <div class="; dq; "section"; dq; ">"; nl;
     "            <h3>External ID</h3>"; nl;
     "            <p><a href="; dq; external_href; dq; ">"; external_text; "</a></p>"; nl;
     "        </div>"; nl;
     "    </div>"; nl;
     "</body>"; nl;
     "</html>"; nl;
     "    "].

(** ** The run *)

(** The world of a run: the text of the regular files, the lines printed
    so far, and what the environment refuses.  [read_denied] holds at the
    paths where [open(path, 'r')] fails with an [OSError] other than
    [FileNotFoundError] (a directory, a path that runs through a regular
    file, a file without read permission); [write_denied] at the paths
    where [open(path, "w")] fails; [stdout_encodes] tells which texts the
    encoding of the output stream can represent. *)
Record world : Type := World {
  files : gmap string string;
  stdout : list string;
  read_denied : string → bool;
  write_denied : string → bool;
  stdout_encodes : string → bool
}.

Inductive outcome : Type :=
  | Returned
  | Raised (e : exn).

(** [open(path, 'r')] *)
Inductive opened : Type :=
  | Opened (text : string)
  | FileNotFoundError
  | OpenFailed.

Definition open_read (path : string) (w : world) : opened :=
  if read_denied w path then OpenFailed
  else match files w !! path with
       | Some text => Opened text
       | None => FileNotFoundError
       end.

(** Two statements in sequence: an exception in the first ends both, and
    the world is left as the first made it. *)
Definition and_then (first next : world → outcome * world) (w : world) :
    outcome * world :=
  match first w with
  | (Returned, w') => next w'
  | (Raised e, w') => (Raised e, w')
  end.

(** [print(line)]: the stream raises when it cannot encode the line. *)
Definition print (line : string) (w : world) : outcome * world :=
  if stdout_encodes w line
  then (Returned,
        World (files w) (stdout w ++ [line])
          (read_denied w) (write_denied w) (stdout_encodes w))
  else (Raised UnicodeEncodeError, w).

(** [with open(path, "w", encoding="utf-8") as f: f.write(data)] *)
Definition write_file (path data : string) (w : world) : outcome * world :=
  if write_denied w path then (Raised OSError, w)
  else (Returned,
        World (<[path := data]> (files w)) (stdout w)
          (read_denied w) (write_denied w) (stdout_encodes w)).

(** What steps 2 and 3 leave behind for the two exports. *)
Record built : Type := Built {
  g : graph;
  broader_links : list string;
  narrower_links : list string;
  related_links : list string
}.

Section Collaborators.

(** Whether the graph library's [URIRef] constructor raises on a raw
    front-matter value.  The program only observes this through the
    handler around the [exactMatch] insertion.  The library does not
    raise on a string; the statements that depend on it say so. *)
Variable URIRef_raises : yaml → bool.

(** [g.serialize(format='json-ld', indent=4)] *)
Variable serialize : graph → string.

(** How an f-string renders a value that is not a string. *)
Variable format_value : yaml → string.

(** [frontmatter.load(f)] on the text of the file: the metadata of the
    post, or the exception of the reader or of the parser. *)
Variable frontmatter_load : string → result (gmap string yaml).

Definition py_str (v : yaml) : string :=
  match v with
  | YStr s => s
  | _ => format_value v
  end.

(** One turn of the [exactMatch] loop, with its [try ... except: pass]. *)
Definition add_exact_match (subject_uri : node) (g : graph) (uri : yaml) : graph :=
  if URIRef_raises uri then g
  else add g (subject_uri, SKOS_exactMatch, URIRef uri).

(** Steps 1 to 3 and the exact matches: the graph and the three link
    lists, or the exception that ends the run. *)
Definition build (filename_raw : string) (post : gmap string yaml) : result built :=
  let g := Graph in
  let subject_uri := clean_uri filename_raw in
  let g := add g (subject_uri, RDF_type, SKOS_Concept) in
  let g := add g (subject_uri, SKOS_prefLabel, Literal (YStr filename_raw) LANG) in
  let g := add_each (λ alias, (subject_uri, SKOS_altLabel, Literal alias LANG))
             g (items_if_truthy (post_get post "aliases")) in
  let g := if truthy (post_get post "definition")
           then add g (subject_uri, SKOS_definition, Literal (post_get post "definition") LANG)
           else g in
  let g := if truthy (post_get post "scopeNote")
           then add g (subject_uri, SKOS_scopeNote, Literal (post_get post "scopeNote") LANG)
           else g in
  broader_links ← parse_links (post_get post "broader");
  let g := add_each (λ link, (subject_uri, SKOS_broader, clean_uri link)) g broader_links in
  narrower_links ← parse_links (post_get post "narrower");
  let g := add_each (λ link, (subject_uri, SKOS_narrower, clean_uri link)) g narrower_links in
  related_links ← parse_links (post_get post "related");
  let g := add_each (λ link, (subject_uri, SKOS_related, clean_uri link)) g related_links in
  let g := foldl (add_exact_match subject_uri) g
             (items_if_truthy (post_get post "exactMatch")) in
  Ok (Built g broader_links narrower_links related_links).

Definition html_content (filename_raw jsonld_data : string)
    (post : gmap string yaml) (b : built) : string :=
  let exact_match := post_get post "exactMatch" in
  join (html_pieces filename_raw jsonld_data
          (py_str (post_get_or post "definition" (YStr "No definition provided.")))
          (broader_links b) (narrower_links b) (related_links b)
          (if truthy exact_match then py_str exact_match else "#")
          (if truthy exact_match then py_str exact_match else "None")).

(** Steps 4 and 5: two writes and two prints, none of them guarded. *)
Definition export (filename_raw : string) (post : gmap string yaml)
    (b : built) : world → outcome * world :=
  let jsonld_data := serialize (g b) in
  let output_json_path := filename_raw +:+ ".jsonld" in
  let output_html_path := filename_raw +:+ ".html" in
  and_then (write_file output_json_path jsonld_data)
    (and_then (print ("✔ SKOS JSON-LD Generated: " +:+ output_json_path))
       (and_then
          (write_file output_html_path
             (html_content filename_raw jsonld_data post b))
          (print ("✔ HTML Visualization Generated: " +:+ output_html_path)))).

(** The handler around the load catches [FileNotFoundError] and nothing
    else: any other failure of [open], and any exception of the loader,
    ends the run. *)
Definition generate_hierarchical_skos (file_path : string) (w : world) : outcome * world :=
  let filename_raw := filename_of file_path in
  match open_read file_path w with
  | FileNotFoundError => print ("Error: File " +:+ file_path +:+ " not found.") w
  | OpenFailed => (Raised OSError, w)
  | Opened text =>
      match frontmatter_load text with
      | Raise e => (Raised e, w)
      | Ok post =>
          match build filename_raw post with
          | Raise e => (Raised e, w)
          | Ok b => export filename_raw post b w
          end
      end
  end.

End Collaborators.

(** ** The entry point *)

Section EntryPoint.

Variable URIRef_raises : yaml → bool.
Variable serialize : graph → string.
Variable format_value : yaml → string.
Variable frontmatter_load : string → result (gmap string yaml).


End EntryPoint.

(** * Vocabulary of the statements *)

(** The value of an upper-case hexadecimal digit, to read an escape
    back. *)
Definition hex_value (c : ascii) : nat :=
  if in_range 48 57 c then nat_of_ascii c - 48 else nat_of_ascii c - 55.

(** The heading and the paragraph of the definition, as the page template
    has them. *)
Definition definition_section (text : string) : list string :=
  ["            <h3>Definition</h3>"; nl;
   "            <p>"; text; "</p>"].

(** The heading and the hyperlink of the external identifier, as the page
    template has them. *)
Definition external_section (href text : string) : list string :=
  ["            <h3>External ID</h3>"; nl;
   "            <p><a href="; dq; href; dq; ">"; text; "</a></p>"].

(** The machine-readable block of the page, as the template has it. *)
Definition jsonld_block (jsonld_data : string) : list string :=
  ["    <script type="; dq; "application/ld+json"; dq; ">"; nl;
   "    "; jsonld_data; nl;
   "    </script>"].

(** [s] starts with a wiki link to [name]: [[[name]]] or
    [[[name|alias]]], the name non-empty and free of bar and closing
    bracket, the alias non-empty and free of closing bracket. *)
Definition wiki_link (name s : string) : Prop :=
  name ≠ EmptyString ∧ str_forall name_char name = true ∧
  ((∃ rest, s = "[[" +:+ name +:+ "]]" +:+ rest)
   ∨ (∃ alias rest, alias ≠ EmptyString ∧ str_forall alias_char alias = true
        ∧ s = "[[" +:+ name +:+ "|" +:+ alias +:+ "]]" +:+ rest)).

(** [r] is empty or starts with a character outside the class [p]. *)
Definition stops (p : ascii → bool) (r : string) : Prop :=
  match r with
  | EmptyString => True
  | String c _ => p c = false
  end.

(** The three relation fields, their front-matter keys, their predicates
    and the link lists the builder keeps for the page. *)
Inductive relation : Type :=
  | Broader
  | Narrower
  | Related.

#[global] Instance relation_eq : EqDecision relation.
Proof. solve_decision. Defined.

Definition relation_key (r : relation) : string :=
  match r with
  | Broader => "broader"
  | Narrower => "narrower"
  | Related => "related"
  end.

Definition relation_predicate (r : relation) : predicate :=
  match r with
  | Broader => SKOS_broader
  | Narrower => SKOS_narrower
  | Related => SKOS_related
  end.

Definition relation_links (r : relation) (b : built) : list string :=
  match r with
  | Broader => broader_links b
  | Narrower => narrower_links b
  | Related => related_links b
  end.

(** The triples of a graph that carry a given predicate. *)
Definition with_predicate (p : predicate) (g : graph) : list triple :=
  filter (λ t, t.1.2 = p) g.

(** [part] occurs in [text]. *)
Definition occurs_in (part text : string) : Prop :=
  ∃ before after, text = before +:+ part +:+ after.

(** [m] is a run of consecutive pieces of [l]. *)
Fixpoint pieces_at_head (m l : list string) : Prop :=
  match m, l with
  | [], _ => True
  | x :: m', y :: l' => x = y ∧ pieces_at_head m' l'
  | _ :: _, [] => False
  end.

Fixpoint pieces_within (m l : list string) : Prop :=
  pieces_at_head m l ∨
  match l with
  | [] => False
  | _ :: l' => pieces_within m l'
  end.

(** The heading and the list of one relation, as the page template has
    them. *)
Definition relation_section (r : relation) (links : list string) : list string :=
  match r with
  | Broader =>
      ["                <h3>⬆ Broader (Parent)</h3>"; nl;
       "                <ul>"; make_list links; "</ul>"]
  | Narrower =>
      ["                <h3>⬇ Narrower (Children)</h3>"; nl;
       "                <ul>"; make_list links; "</ul>"]
  | Related =>
      ["            <h3>↔ Related</h3>"; nl;
       "            <ul>"; make_list links; "</ul>"]
  end.

(** [open(path, 'r')] gives the text of the file. *)
Definition opens (w : world) (path text : string) : Prop :=
  open_read path w = Opened text.


(** The environment lets a run export under the base name: both output
    paths can be opened for writing and the output stream can encode
    both confirmations. *)
Definition exports_allowed (w : world) (filename_raw : string) : Prop :=
  write_denied w (filename_raw +:+ ".jsonld") = false
  ∧ write_denied w (filename_raw +:+ ".html") = false
  ∧ stdout_encodes w ("✔ SKOS JSON-LD Generated: " +:+ filename_raw +:+ ".jsonld") = true
  ∧ stdout_encodes w ("✔ HTML Visualization Generated: " +:+ filename_raw +:+ ".html") = true.

(** The two confirmation lines of a complete run. *)
Definition confirmations (filename_raw : string) : list string :=
  ["✔ SKOS JSON-LD Generated: " +:+ filename_raw +:+ ".jsonld";
   "✔ HTML Visualization Generated: " +:+ filename_raw +:+ ".html"].

(** * Stand-ins for the collaborators

    Simple collaborators on which the model can be run. *)

Module Sample.

(** The constructor as the library has it: on a string it never raises
    (a text that does not look like a URI is only logged); it raises on a
    value that is no container (null, a boolean, a number), on which its
    membership test fails. *)
Definition URIRef_raises (v : yaml) : bool :=
  match v with
  | YNull | YBool _ | YInt _ => true
  | YStr _ | YList _ | YMap _ => false
  end.

(** A serializer that only counts the triples. *)
Definition serialize (g : graph) : string :=
  join ((λ _, "*") <$> g).

Definition format_value (v : yaml) : string := "?".

(** A parser that finds the same metadata in every text. *)
Definition frontmatter_load (post : gmap string yaml) (text : string) :
    result (gmap string yaml) :=
  Ok post.


Definition world_with (path : string) : world :=
  World {[ path := "---" ]} [] (λ _, false) (λ _, false) (λ _, true).



End Sample.

(** * Properties *)

(** ** The model on small inputs *)

Example clean_uri_plain :
  clean_uri "Climate Change" = URIRef (YStr "http://example.org/kb/Climate-Change").
Proof. reflexivity. Qed.

Example clean_uri_wrapped :
  clean_uri "[[Climate Change]]" = URIRef (YStr "http://example.org/kb/Climate-Change").
Proof. reflexivity. Qed.

Example clean_uri_reserved :
  clean_uri "R&D" = URIRef (YStr "http://example.org/kb/R%26D").
Proof. reflexivity. Qed.

Example parse_links_wrapped :
  parse_links (YStr "[[Climate Change]]") = Ok ["Climate Change"].
Proof. reflexivity. Qed.

Example parse_links_aliased :
  parse_links (YStr "[[Climate Change|CC]]") = Ok ["Climate Change"].
Proof. reflexivity. Qed.

Example parse_links_bare :
  parse_links (YStr "Climate Change") = Ok ["Climate Change"].
Proof. reflexivity. Qed.

Example parse_links_second_link_ignored :
  parse_links (YStr "see [[A]] and [[B]]") = Ok ["A"].
Proof. reflexivity. Qed.

Example parse_links_empty_alias :
  parse_links (YStr "[[A|]]") = Ok ["[[A|]]"].
Proof. reflexivity. Qed.

Example filename_of_md : filename_of "notes/Climate Change.md" = "Climate Change".
Proof. reflexivity. Qed.

Example filename_of_hidden : filename_of ".md" = ".md".
Proof. reflexivity. Qed.

(** ** Strings *)

Lemma append_assoc (a b c : string) : (a +:+ b) +:+ c = a +:+ (b +:+ c).
Proof. induction a as [|x a IH]; simpl; [reflexivity | by rewrite IH]. Qed.

Lemma append_empty_r (a : string) : a +:+ EmptyString = a.
Proof. induction a as [|x a IH]; simpl; [reflexivity | by rewrite IH]. Qed.

Lemma append_inv_head (a b c : string) : a +:+ b = a +:+ c → b = c.
Proof. induction a as [|x a IH]; simpl; intros H; [done | injection H; auto]. Qed.

Lemma length_append (a b : string) :
  String.length (a +:+ b) = String.length a + String.length b.
Proof. induction a as [|x a IH]; simpl; [reflexivity | by rewrite IH]. Qed.

Lemma str_forall_append p (a b : string) :
  str_forall p (a +:+ b) = str_forall p a && str_forall p b.
Proof.
  induction a as [|x a IH]; simpl; [reflexivity |].
  by rewrite IH, andb_assoc.
Qed.

(** A character that fails [p] does not occur in a string of [p]s. *)
Lemma str_forall_has_char p c (s : string) :
  p c = false → str_forall p s = true → has_char c s = false.
Proof.
  intros Hc. induction s as [|x s IH]; simpl; [done |].
  intros [Hx Hs]%andb_true_iff. rewrite (IH Hs), orb_false_r.
  destruct (Ascii.eqb_spec x c) as [->|]; [congruence | done].
Qed.

(** ** [str.replace] with a two-character pattern and nothing to put in *)

Section Replace2.

Variables a b : ascii.
Let old : string := String a (String b EmptyString).

Lemma replace2_step c d s :
  str_replace old EmptyString (String c (String d s)) =
    if Ascii.eqb a c && Ascii.eqb b d
    then str_replace old EmptyString s
    else String c (str_replace old EmptyString (String d s)).
Proof.
  unfold str_replace, old. simpl.
  destruct (Ascii.eqb a c), (Ascii.eqb b d); reflexivity.
Qed.

Lemma replace2_single c :
  str_replace old EmptyString (str1 c) = str1 c.
Proof.
  unfold str_replace, old, str1. simpl.
  by rewrite andb_false_r.
Qed.

(** Nothing to replace where the first character of the pattern does
    not occur. *)
Lemma replace2_absent s :
  has_char a s = false → str_replace old EmptyString s = s.
Proof.
  induction s as [|c s IH]; [done |].
  simpl. intros [Hc Hs]%orb_false_iff.
  destruct s as [|d s]; [apply replace2_single |].
  rewrite replace2_step.
  rewrite Ascii.eqb_sym, Hc. simpl. by rewrite (IH Hs).
Qed.

End Replace2.

#[local] Arguments str_replace : simpl never.

(** Appending a closing pair does not disturb the removal of opening
    pairs. *)
Lemma strip_open_append_close (N : string) :
  str_replace "[[" EmptyString (N +:+ "]]") =
    str_replace "[[" EmptyString N +:+ "]]".
Proof.
  cut (str_replace "[[" EmptyString (N +:+ "]]") =
         str_replace "[[" EmptyString N +:+ "]]"
       ∧ ∀ c, str_replace "[[" EmptyString (String c N +:+ "]]") =
                str_replace "[[" EmptyString (String c N) +:+ "]]").
  { intros [H _]. exact H. }
  induction N as [|d N [IH1 IH2]].
  - split; [reflexivity |].
    intros c. simpl. rewrite replace2_step. fold (str1 c).
    rewrite replace2_single. simpl. by rewrite andb_false_r.
  - split; [apply IH2 |].
    intros c. simpl. rewrite !replace2_step.
    destruct (Ascii.eqb "[" c && Ascii.eqb "[" d); [exact IH1 |].
    simpl. f_equal. apply IH2.
Qed.

(** A closing pair appended to a string is removed with the others: runs
    of closing brackets are consumed in pairs from the left, and two more
    do not change what is left over. *)
Lemma strip_close_append_close (M : string) :
  str_replace "]]" EmptyString (M +:+ "]]") = str_replace "]]" EmptyString M.
Proof.
  cut (str_replace "]]" EmptyString (M +:+ "]]") = str_replace "]]" EmptyString M
       ∧ ∀ c, str_replace "]]" EmptyString (String c M +:+ "]]") =
                str_replace "]]" EmptyString (String c M)).
  { intros [H _]. exact H. }
  induction M as [|d M [IH1 IH2]].
  - split; [reflexivity |].
    intros c. simpl. rewrite replace2_step. fold (str1 c). rewrite replace2_single.
    destruct (Ascii.eqb_spec "]" c) as [<-|]; reflexivity.
  - split; [apply IH2 |].
    intros c. simpl. rewrite !replace2_step.
    destruct (Ascii.eqb "]" c && Ascii.eqb "]" d); [exact IH1 |].
    f_equal. apply IH2.
Qed.

Lemma strip_brackets_wrapped (N : string) :
  strip_brackets ("[[" +:+ N +:+ "]]") = strip_brackets N.
Proof.
  unfold strip_brackets.
  change ("[[" +:+ N +:+ "]]") with (String "[" (String "[" (N +:+ "]]"))).
  rewrite replace2_step. simpl.
  by rewrite strip_open_append_close, strip_close_append_close.
Qed.

(** C5. For every display name [N], with or without spaces or brackets,
    the identifier built from [N] and the one built from the wrapped form
    [[[N]]] are the same URI: the namespace prefix followed by the
    percent-encoding of the name with its bracket pairs removed and each
    space turned into a hyphen. *)
Theorem clean_uri_wrapped_eq (N : string) :
  clean_uri ("[[" +:+ N +:+ "]]") = clean_uri N
  ∧ clean_uri N =
      URIRef (YStr (BASE_URI +:+
                    quote (str_replace " " "-"
                             (str_replace "]]" EmptyString
                                (str_replace "[[" EmptyString N))))).
Proof.
  split; [| reflexivity].
  unfold clean_uri, uri_suffix. by rewrite strip_brackets_wrapped.
Qed.

(** ** Percent-encoding *)

(** What [quote] emits for one byte is made of safe characters and the
    percent sign. *)
Lemma quote_byte_chars (c : ascii) :
  str_forall (λ x, is_safe x || Ascii.eqb x "%") (quote_byte c) = true.
Proof. destruct c as [[] [] [] [] [] [] [] []]; reflexivity. Qed.

Lemma quote_chars (s : string) :
  str_forall (λ x, is_safe x || Ascii.eqb x "%") (quote s) = true.
Proof.
  induction s as [|c s IH]; [reflexivity |].
  simpl. by rewrite str_forall_append, quote_byte_chars, IH.
Qed.

Lemma quote_byte_length (c : ascii) : (1 ≤ String.length (quote_byte c))%nat.
Proof. unfold quote_byte. destruct (is_safe c); simpl; lia. Qed.

Lemma quote_length (s : string) :
  (String.length s ≤ String.length (quote s))%nat.
Proof.
  induction s as [|c s IH]; simpl; [lia |].
  rewrite length_append. pose proof (quote_byte_length c). lia.
Qed.

(** [quote] leaves a string alone exactly when it is made of safe
    characters. *)
Lemma quote_fixed_iff (s : string) :
  quote s = s ↔ str_forall is_safe s = true.
Proof.
  induction s as [|c s IH]; [done |].
  simpl. unfold quote_byte.
  destruct (is_safe c) eqn:Hc; simpl.
  - rewrite <- IH. split; [by intros [= ->] | by intros ->].
  - split; [| done]. intros H.
    apply (f_equal String.length) in H. simpl in H.
    pose proof (quote_length s). lia.
Qed.

Lemma quote_safe_inv (s : string) :
  str_forall is_safe (quote s) = true → str_forall is_safe s = true.
Proof.
  induction s as [|c s IH]; [done |].
  simpl. unfold quote_byte.
  destruct (is_safe c) eqn:Hc; simpl.
  - rewrite Hc. simpl. exact IH.
  - done.
Qed.

(** An encoded name has no bracket and no space left. *)
Lemma quote_no_char (c : ascii) (s : string) :
  is_safe c || Ascii.eqb c "%" = false → has_char c (quote s) = false.
Proof.
  intros Hc.
  exact (str_forall_has_char (λ x, is_safe x || Ascii.eqb x "%") c _ Hc (quote_chars s)).
Qed.

Lemma replace1_absent (a b : ascii) (s : string) :
  has_char a s = false → str_replace (str1 a) (str1 b) s = s.
Proof.
  unfold str_replace, str1.
  induction s as [|c s IH]; [done |].
  simpl. intros [Hc Hs]%orb_false_iff.
  rewrite Ascii.eqb_sym, Hc. simpl. by rewrite (IH Hs).
Qed.

Lemma strip_brackets_quote (s : string) : strip_brackets (quote s) = quote s.
Proof.
  unfold strip_brackets.
  rewrite (replace2_absent "[" "[") by (by apply quote_no_char).
  by rewrite (replace2_absent "]" "]") by (by apply quote_no_char).
Qed.

(** Building from an encoded name encodes it a second time. *)
Lemma uri_suffix_of_suffix (N : string) :
  uri_suffix (uri_suffix N) = quote (uri_suffix N).
Proof.
  unfold uri_suffix.
  rewrite strip_brackets_quote.
  change " " with (str1 " "). change "-" with (str1 "-").
  by rewrite replace1_absent by (by apply quote_no_char).
Qed.

(** C2, as the code has it.  Building an identifier from an
    already-encoded, bracket-free name gives the URI of the original name
    exactly when the name, once its brackets are removed and its spaces
    are hyphens, is made only of the characters that the encoder leaves
    alone (ASCII letters, digits, [_.-~/]); any other name gets its
    percent signs encoded again. *)
Theorem clean_uri_idempotent_iff (N : string) :
  clean_uri (uri_suffix N) = clean_uri N
  ↔ str_forall is_safe (str_replace " " "-" (strip_brackets N)) = true.
Proof.
  unfold clean_uri. rewrite uri_suffix_of_suffix.
  split.
  - intros [= H].
    apply quote_fixed_iff in H. by apply quote_safe_inv.
  - intros H. do 3 f_equal.
    apply quote_fixed_iff. unfold uri_suffix.
    by rewrite (proj2 (quote_fixed_iff _) H).
Qed.

(** C2, as stated, fails: the encoded name of [R&D] is [R%26D], and the
    identifier built from it is not the identifier of [R&D]. *)
Lemma clean_uri_not_idempotent :
  uri_suffix "R&D" = "R%26D"
  ∧ clean_uri "R%26D" = URIRef (YStr "http://example.org/kb/R%2526D")
  ∧ clean_uri (uri_suffix "R&D") ≠ clean_uri "R&D".
Proof. split; [reflexivity | split; [reflexivity | discriminate]]. Qed.

Example clean_uri_idempotent_on_safe :
  clean_uri (uri_suffix "Climate Change") = clean_uri "Climate Change".
Proof. by apply clean_uri_idempotent_iff. Qed.

(** ** The link pattern *)

Lemma strip_prefix_spec (p s r : string) :
  strip_prefix p s = Some r ↔ s = p +:+ r.
Proof.
  revert s. induction p as [|a p IH]; intros s; simpl.
  - split; [by intros [= ->] | by intros ->].
  - destruct s as [|b s]; [done |].
    destruct (Ascii.eqb_spec a b) as [->|Hab].
    + rewrite IH. split; [by intros -> | by intros [= ->]].
    + split; [done | intros [= ? ?]; congruence].
Qed.

Lemma span_spec p (s taken rest : string) :
  span p s = (taken, rest)
  ↔ s = taken +:+ rest ∧ str_forall p taken = true ∧ stops p rest.
Proof.
  revert taken. induction s as [|c s IH]; intros taken; simpl.
  - split.
    + by intros [= <- <-].
    + intros (H & _ & _). destruct taken; [| done].
      simpl in H. by subst.
  - destruct (p c) eqn:Hc.
    + destruct (span p s) as [t r] eqn:Hs. split.
      * intros [= <- <-]. destruct (proj1 (IH t) eq_refl) as (-> & Ht & Hr).
        simpl. by rewrite Hc, Ht.
      * intros (H & Ht & Hr). destruct taken as [|c' taken].
        { simpl in H. subst rest. simpl in Hr. congruence. }
        simpl in H, Ht. injection H as <- ->.
        apply andb_true_iff in Ht as [_ Ht].
        assert ((t, r) = (taken, rest)) as [= -> ->] by (by apply IH).
        done.
    + split.
      * by intros [= <- <-].
      * intros (H & Ht & Hr). destruct taken as [|c' taken].
        { simpl in H. by subst. }
        simpl in H, Ht. injection H as <- ->.
        apply andb_true_iff in Ht as [Ht _]. congruence.
Qed.

Lemma match_alias_close_spec (r1 rest : string) :
  match_alias_close r1 = Some rest
  ↔ ∃ alias, alias ≠ EmptyString ∧ str_forall alias_char alias = true
      ∧ r1 = "|" +:+ alias +:+ "]]" +:+ rest.
Proof.
  unfold match_alias_close. split.
  - destruct (strip_prefix "|" r1) as [r2|] eqn:H2; [| done].
    apply strip_prefix_spec in H2 as ->.
    cbn [mbind option_bind].
    destruct (span alias_char r2) as [alias r3] eqn:Hs.
    apply span_spec in Hs as (-> & Ha & _).
    destruct (is_empty alias) eqn:He; [done |].
    intros ->%strip_prefix_spec. exists alias.
    split; [by intros -> | done].
  - intros (alias & Hne & Ha & ->).
    rewrite (proj2 (strip_prefix_spec "|" _ (alias +:+ "]]" +:+ rest)) eq_refl).
    cbn [mbind option_bind].
    rewrite (proj2 (span_spec alias_char _ alias ("]]" +:+ rest)))
      by (by split_and!).
    destruct alias; [done |]. by apply strip_prefix_spec.
Qed.

(** The matcher accepts exactly the strings that start with a link, and
    returns the name of that link. *)
Lemma match_here_spec (s name : string) :
  match_here s = Some name ↔ wiki_link name s.
Proof.
  unfold match_here, wiki_link. split.
  - destruct (strip_prefix "[[" s) as [r|] eqn:Hr; [| done].
    apply strip_prefix_spec in Hr as ->.
    cbn [mbind option_bind].
    destruct (span name_char r) as [n r1] eqn:Hs.
    apply span_spec in Hs as (-> & Hn & _).
    destruct (is_empty n) eqn:He; [done |].
    assert (n ≠ EmptyString) as Hne by (intros ->; done).
    destruct (match_alias_close r1) as [rest|] eqn:Ha.
    + intros [= <-]. apply match_alias_close_spec in Ha as (alias & ? & ? & ->).
      split_and!; [done.. |]. right. by exists alias, rest.
    + destruct (strip_prefix "]]" r1) as [rest|] eqn:Hc; [| done].
      apply strip_prefix_spec in Hc as ->.
      intros [= <-]. split_and!; [done.. |]. left. by exists rest.
  - intros (Hne & Hn & [[rest ->] | (alias & rest & Hane & Ha & ->)]).
    + rewrite (proj2 (strip_prefix_spec "[[" _ (name +:+ "]]" +:+ rest)) eq_refl).
      cbn [mbind option_bind].
      rewrite (proj2 (span_spec name_char _ name ("]]" +:+ rest)))
        by (by split_and!).
      destruct name; [done |]. reflexivity.
    + rewrite (proj2 (strip_prefix_spec "[[" _
                 (name +:+ "|" +:+ alias +:+ "]]" +:+ rest)) eq_refl).
      cbn [mbind option_bind].
      rewrite (proj2 (span_spec name_char _ name
                 ("|" +:+ alias +:+ "]]" +:+ rest))) by (by split_and!).
      destruct name; [done |]. cbn [is_empty].
      rewrite (proj2 (match_alias_close_spec _ rest)); [done |].
      by exists alias.
Qed.

Lemma has_char_append c (a b : string) :
  has_char c (a +:+ b) = has_char c a || has_char c b.
Proof.
  induction a as [|x a IH]; simpl; [reflexivity |].
  by rewrite IH, orb_assoc.
Qed.

(** A link starts with an opening bracket and contains a closing one. *)
Lemma wiki_link_head name c r : wiki_link name (String c r) → c = "["%char.
Proof. intros (_ & _ & [[rest H] | (alias & rest & _ & _ & H)]); by injection H. Qed.

Lemma wiki_link_has_close name s : wiki_link name s → has_char "]" s = true.
Proof.
  intros (_ & _ & [[rest ->] | (alias & rest & _ & _ & ->)]);
    rewrite !has_char_append; simpl; by rewrite ?orb_true_r.
Qed.

Lemma re_search_first (pre s name : string) :
  wiki_link name s →
  (∀ p1 p2, pre = p1 +:+ p2 → p2 ≠ EmptyString → ∀ n, ¬ wiki_link n (p2 +:+ s)) →
  re_search (pre +:+ s) = Some name.
Proof.
  intros Hlink. induction pre as [|c pre IH]; intros Hfirst.
  - change (EmptyString +:+ s) with s.
    destruct s; cbn [re_search]; by rewrite (proj2 (match_here_spec _ _) Hlink).
  - change (String c pre +:+ s) with (String c (pre +:+ s)).
    cbn [re_search].
    destruct (match_here (String c (pre +:+ s))) as [n|] eqn:Hm.
    + apply match_here_spec in Hm.
      by destruct (Hfirst EmptyString (String c pre) eq_refl ltac:(done) n).
    + apply IH. intros p1 p2 -> Hne n.
      by apply (Hfirst (String c p1) p2).
Qed.

Lemma re_search_none (item : string) :
  (∀ p1 p2 n, item = p1 +:+ p2 → ¬ wiki_link n p2) → re_search item = None.
Proof.
  induction item as [|c item IH]; intros Hno.
  - cbn [re_search]. destruct (match_here EmptyString) as [n|] eqn:Hm; [| done].
    apply match_here_spec in Hm. by destruct (Hno EmptyString EmptyString n).
  - cbn [re_search].
    destruct (match_here (String c item)) as [n|] eqn:Hm.
    + apply match_here_spec in Hm.
      by destruct (Hno EmptyString (String c item) n).
    + apply IH. intros p1 p2 n ->. by apply (Hno (String c p1) p2 n).
Qed.

(** A string without closing bracket holds no link. *)
Lemma no_link_without_close (item : string) :
  has_char "]" item = false →
  ∀ p1 p2 n, item = p1 +:+ p2 → ¬ wiki_link n p2.
Proof.
  intros Hc p1 p2 n -> Hl%wiki_link_has_close.
  rewrite has_char_append, Hl, orb_true_r in Hc. done.
Qed.

Lemma link_name_bare (item : string) :
  has_char "]" item = false → link_name item = item.
Proof.
  intros Hc. unfold link_name.
  by rewrite (re_search_none item (no_link_without_close item Hc)).
Qed.

(** C4, as the code has it.  When an item holds a link [[[name]]] or
    [[[name|alias]]] (name non-empty, free of bar and closing bracket;
    alias non-empty, free of closing bracket) and no link starts earlier
    in the item, unwrapping returns that name exactly as written between
    the brackets, surrounding whitespace included; later links in the
    item are not looked at.  When no link starts anywhere in the item,
    the whole item is returned verbatim. *)
Theorem link_name_spec :
  (∀ pre s name : string,
     wiki_link name s →
     (∀ p1 p2, pre = p1 +:+ p2 → p2 ≠ EmptyString →
               ∀ n, ¬ wiki_link n (p2 +:+ s)) →
     link_name (pre +:+ s) = name)
  ∧ (∀ item : string,
       (∀ p1 p2 n, item = p1 +:+ p2 → ¬ wiki_link n p2) →
       link_name item = item).
Proof.
  split.
  - intros pre s name Hlink Hfirst. unfold link_name.
    by rewrite (re_search_first pre s name Hlink Hfirst).
  - intros item Hno. unfold link_name. by rewrite (re_search_none item Hno).
Qed.

Lemma link_name_spec_witness :
  link_name ("see " +:+ "[[ Climate Change |CC]] and [[B]]") = " Climate Change "
  ∧ link_name "Climate Change" = "Climate Change".
Proof.
  split.
  - apply (proj1 link_name_spec).
    + split_and!; [done | reflexivity |].
      right. by exists "CC", " and [[B]]".
    + intros p1 p2 Hpre Hne n Hl.
      assert (has_char "[" p2 = false) as Hc.
      { apply (f_equal (has_char "[")) in Hpre.
        rewrite has_char_append in Hpre.
        by destruct (has_char "[" p2); [rewrite orb_true_r in Hpre |]. }
      destruct p2 as [|c p2]; [done |].
      apply wiki_link_head in Hl as ->. discriminate Hc.
  - apply (proj2 link_name_spec).
    by apply no_link_without_close.
Defined.

(** C4, as stated, fails: the name comes back with the whitespace it has
    between the brackets; nothing trims it. *)
Lemma link_name_not_trimmed :
  parse_links (YStr "[[ Climate Change ]]") = Ok [" Climate Change "]
  ∧ link_name "[[ Climate Change ]]" ≠ "Climate Change".
Proof. split; [reflexivity | discriminate]. Qed.

(** ** [parse_links] and the [aliases] items *)

Lemma parse_items_strs (strs : list string) :
  parse_items (YStr <$> strs) = Ok (link_name <$> strs).
Proof.
  induction strs as [|s strs IH]; [reflexivity |].
  cbn [fmap list_fmap parse_items parse_item]. fold (YStr <$> strs).
  by rewrite IH.
Qed.

Lemma parse_items_non_str (items : list yaml) (item : yaml) :
  item ∈ items → (∀ s, item ≠ YStr s) → parse_items items = Raise TypeError.
Proof.
  intros Hin Hns. induction Hin as [item items | item x items Hin IH].
  - destruct item; try done. by destruct (Hns s).
  - cbn [parse_items]. rewrite (IH Hns). by destruct x.
Qed.

Lemma parse_links_list (items : list yaml) :
  parse_links (YList items) = parse_items items.
Proof. by destruct items. Qed.

(** C1, as the code has it.  A missing key reads as the null value.  For
    [broader], [narrower] and [related]: null gives the empty sequence, a
    non-empty string gives the one-item sequence of its link name (the
    string itself when it has no closing bracket), a list of strings
    gives the link name of each item, and any value that is neither a
    string nor a list (a number, a mapping) gives the empty sequence.
    For [aliases]: null and every other falsy value give no item, a list
    gives its items, and any other truthy value, a string but also a
    number, is wrapped into a one-item sequence.  None of these cases
    raises. *)
Theorem field_normalization :
  (∀ (post : gmap string yaml) key, post !! key = None → post_get post key = YNull)
  ∧ parse_links YNull = Ok []
  ∧ (∀ X, X ≠ EmptyString → parse_links (YStr X) = Ok [link_name X])
  ∧ (∀ X, has_char "]" X = false → link_name X = X)
  ∧ (∀ Xs, parse_links (YList (YStr <$> Xs)) = Ok (link_name <$> Xs))
  ∧ (∀ v, (∀ s, v ≠ YStr s) → (∀ l, v ≠ YList l) → parse_links v = Ok [])
  ∧ items_if_truthy YNull = []
  ∧ (∀ v, truthy v = false → items_if_truthy v = [])
  ∧ (∀ l, items_if_truthy (YList l) = l)
  ∧ (∀ v, truthy v = true → (∀ l, v ≠ YList l) → items_if_truthy v = [v]).
Proof.
  split_and!.
  - intros post key H. unfold post_get. by rewrite H.
  - reflexivity.
  - intros X HX. by destruct X.
  - apply link_name_bare.
  - intros Xs. rewrite parse_links_list. apply parse_items_strs.
  - intros v Hs Hl. unfold parse_links.
    destruct (negb (truthy v)); [done |].
    destruct v; try done; [by destruct (Hs s) | by destruct (Hl items)].
  - reflexivity.
  - intros v Hv. unfold items_if_truthy. by rewrite Hv.
  - intros l. by destruct l.
  - intros v Hv Hl. unfold items_if_truthy. rewrite Hv.
    destruct v; try done. by destruct (Hl items).
Qed.

Lemma field_normalization_witness :
  post_get (∅ : gmap string yaml) "broader" = YNull
  ∧ parse_links (YStr "X") = Ok ["X"]
  ∧ parse_links (YList [YStr "X"; YStr "Y"]) = Ok ["X"; "Y"]
  ∧ parse_links (YInt 5) = Ok []
  ∧ items_if_truthy (YInt 0) = []
  ∧ items_if_truthy (YStr "X") = [YStr "X"]
  ∧ items_if_truthy (YInt 5) = [YInt 5].
Proof.
  destruct field_normalization
    as (Hget & _ & Hstr & Hbare & Hlist & Hother & _ & Hfalsy & _ & Hwrap).
  split_and!.
  - by apply Hget.
  - rewrite (Hstr "X") by done. by rewrite (Hbare "X").
  - etrans; [exact (Hlist ["X"; "Y"]) |].
    cbn [fmap list_fmap]. by rewrite (Hbare "X"), (Hbare "Y").
  - by apply Hother.
  - by apply Hfalsy.
  - by apply Hwrap.
  - by apply Hwrap.
Defined.

(** ** The graph as a set *)

Lemma add_fresh (g : graph) (t : triple) : t ∉ g → add g t = g ++ [t].
Proof. intros H. unfold add. by rewrite decide_False. Qed.

Lemma add_present (g : graph) (t : triple) : t ∈ g → add g t = g.
Proof. intros H. unfold add. by rewrite decide_True. Qed.

Lemma elem_of_add (g : graph) (t t' : triple) :
  t' ∈ add g t ↔ t' ∈ g ∨ t' = t.
Proof.
  unfold add. destruct (decide (t ∈ g)) as [Hin|Hin].
  - split; [by left | by intros [?| ->]].
  - by rewrite elem_of_app, list_elem_of_singleton.
Qed.

Lemma NoDup_add (g : graph) (t : triple) : NoDup g → NoDup (add g t).
Proof.
  intros Hg. unfold add. destruct (decide (t ∈ g)) as [Hin|Hin]; [done |].
  apply NoDup_app. split_and!; [done | | apply NoDup_singleton].
  intros x Hx ->%list_elem_of_singleton. done.
Qed.

Lemma NoDup_add_each {A} (mk : A → triple) (g : graph) (xs : list A) :
  NoDup g → NoDup (add_each mk g xs).
Proof.
  revert g. induction xs as [|x xs IH]; intros g Hg; [done |].
  apply IH. by apply NoDup_add.
Qed.

Lemma elem_of_add_each {A} (mk : A → triple) (g : graph) (xs : list A) t :
  t ∈ add_each mk g xs ↔ t ∈ g ∨ ∃ x, x ∈ xs ∧ t = mk x.
Proof.
  revert g. induction xs as [|x xs IH]; intros g.
  - split; [by left |]. intros [?|(x & []%elem_of_nil & _)]. done.
  - change (add_each mk g (x :: xs)) with (add_each mk (add g (mk x)) xs).
    rewrite IH, elem_of_add. split.
    + intros [[?| ->]|(y & Hy & ->)]; [by left | right..].
      * exists x. split; [left | done].
      * exists y. split; [by right | done].
    + intros [?|(y & [->|Hy]%elem_of_cons & ->)]; [by left; left | by left; right |].
      right. by exists y.
Qed.

Section WithPredicate.

Variable p : predicate.

Lemma with_predicate_add (g : graph) (t : triple) :
  with_predicate p (add g t) =
    if decide (t.1.2 = p) then add (with_predicate p g) t
    else with_predicate p g.
Proof.
  unfold with_predicate, add.
  destruct (decide (t ∈ g)) as [Hin|Hin].
  - destruct (decide (t.1.2 = p)) as [Hp|Hp]; [| done].
    rewrite decide_True; [done |]. by apply list_elem_of_filter.
  - rewrite filter_app.
    destruct (decide (t.1.2 = p)) as [Hp|Hp].
    + rewrite decide_False by (by intros [_ ?]%list_elem_of_filter).
      by rewrite filter_cons_True.
    + rewrite filter_cons_False by done. apply app_nil_r.
Qed.

Lemma with_predicate_add_each {A} (mk : A → triple) (g : graph) (xs : list A) :
  (∀ x, (mk x).1.2 = p) →
  with_predicate p (add_each mk g xs) = add_each mk (with_predicate p g) xs.
Proof.
  intros Hmk. revert g. induction xs as [|x xs IH]; intros g; [done |].
  change (add_each mk g (x :: xs)) with (add_each mk (add g (mk x)) xs).
  rewrite IH, with_predicate_add, decide_True by apply Hmk. done.
Qed.

Lemma with_predicate_add_each_other {A} (mk : A → triple) (g : graph) (xs : list A) :
  (∀ x, (mk x).1.2 ≠ p) →
  with_predicate p (add_each mk g xs) = with_predicate p g.
Proof.
  intros Hmk. revert g. induction xs as [|x xs IH]; intros g; [done |].
  change (add_each mk g (x :: xs)) with (add_each mk (add g (mk x)) xs).
  rewrite IH, with_predicate_add, decide_False by apply Hmk. done.
Qed.

End WithPredicate.

(** ** The builder *)

Section Builder.

Variable URIRef_raises : yaml → bool.
Variable subject_uri : node.

Lemma elem_of_exact_matches (g0 : graph) (items : list yaml) t :
  t ∈ foldl (add_exact_match URIRef_raises subject_uri) g0 items
  ↔ t ∈ g0 ∨ ∃ uri, uri ∈ items ∧ URIRef_raises uri = false
             ∧ t = (subject_uri, SKOS_exactMatch, URIRef uri).
Proof.
  revert g0. induction items as [|u items IH]; intros g0.
  - split; [by left |]. intros [?|(u & []%elem_of_nil & _)]. done.
  - cbn [foldl]. rewrite IH. unfold add_exact_match.
    destruct (URIRef_raises u) eqn:Hu.
    + split.
      * intros [?|(v & Hv & Hr & ->)]; [by left |].
        right. exists v. split_and!; [by right | done..].
      * intros [?|(v & [->|Hv]%elem_of_cons & Hr & ->)];
          [by left | congruence |].
        right. by exists v.
    + rewrite elem_of_add. split.
      * intros [[?| ->]|(v & Hv & Hr & ->)]; [by left | right..].
        -- exists u. split_and!; [left | done..].
        -- exists v. split_and!; [by right | done..].
      * intros [?|(v & [->|Hv]%elem_of_cons & Hr & ->)];
          [by left; left | by left; right |].
        right. by exists v.
Qed.

Lemma NoDup_exact_matches (g0 : graph) (items : list yaml) :
  NoDup g0 → NoDup (foldl (add_exact_match URIRef_raises subject_uri) g0 items).
Proof.
  revert g0. induction items as [|u items IH]; intros g0 Hg; [done |].
  cbn [foldl]. apply IH. unfold add_exact_match.
  destruct (URIRef_raises u); [done | by apply NoDup_add].
Qed.

Lemma with_predicate_exact_matches_other p (g0 : graph) (items : list yaml) :
  p ≠ SKOS_exactMatch →
  with_predicate p (foldl (add_exact_match URIRef_raises subject_uri) g0 items)
  = with_predicate p g0.
Proof.
  intros Hp. revert g0. induction items as [|u items IH]; intros g0; [done |].
  cbn [foldl]. rewrite IH. unfold add_exact_match.
  destruct (URIRef_raises u); [done |].
  rewrite with_predicate_add, decide_False; [done |].
  simpl. congruence.
Qed.

End Builder.

Section BuildFacts.

Variable URIRef_raises : yaml → bool.
Variables (filename_raw : string) (post : gmap string yaml).

Let subject_uri : node := clean_uri filename_raw.

(** The graph before the relation fields are looked at. *)
Let labelled : graph :=
  let g := add Graph (subject_uri, RDF_type, SKOS_Concept) in
  let g := add g (subject_uri, SKOS_prefLabel, Literal (YStr filename_raw) LANG) in
  let g := add_each (λ alias, (subject_uri, SKOS_altLabel, Literal alias LANG))
             g (items_if_truthy (post_get post "aliases")) in
  let g := if truthy (post_get post "definition")
           then add g (subject_uri, SKOS_definition, Literal (post_get post "definition") LANG)
           else g in
  if truthy (post_get post "scopeNote")
  then add g (subject_uri, SKOS_scopeNote, Literal (post_get post "scopeNote") LANG)
  else g.

Lemma build_inv (b : built) :
  build URIRef_raises filename_raw post = Ok b →
  parse_links (post_get post "broader") = Ok (broader_links b)
  ∧ parse_links (post_get post "narrower") = Ok (narrower_links b)
  ∧ parse_links (post_get post "related") = Ok (related_links b)
  ∧ g b =
      foldl (add_exact_match URIRef_raises subject_uri)
        (add_each (λ link, (subject_uri, SKOS_related, clean_uri link))
           (add_each (λ link, (subject_uri, SKOS_narrower, clean_uri link))
              (add_each (λ link, (subject_uri, SKOS_broader, clean_uri link))
                 labelled (broader_links b))
              (narrower_links b))
           (related_links b))
        (items_if_truthy (post_get post "exactMatch")).
Proof.
  unfold build.
  destruct (parse_links (post_get post "broader")) as [bl|]; [| done].
  destruct (parse_links (post_get post "narrower")) as [nl|]; [| done].
  destruct (parse_links (post_get post "related")) as [rl|]; [| done].
  by intros [= <-].
Qed.

Lemma build_ok :
  (∀ r, ∃ links, parse_links (post_get post (relation_key r)) = Ok links) →
  ∃ b, build URIRef_raises filename_raw post = Ok b.
Proof.
  intros Hok. unfold build.
  destruct (Hok Broader) as [bl Hb], (Hok Narrower) as [nl Hn],
    (Hok Related) as [rl Hr].
  cbn [relation_key] in Hb, Hn, Hr. rewrite Hb, Hn, Hr.
  by eexists.
Qed.

Lemma NoDup_labelled : NoDup labelled.
Proof.
  unfold labelled. cbv zeta.
  repeat first
    [ apply NoDup_add | apply NoDup_add_each | apply NoDup_nil_2
    | match goal with |- NoDup (if ?c then _ else _) => destruct c end ].
Qed.

Lemma with_predicate_labelled (r : relation) :
  with_predicate (relation_predicate r) labelled = [].
Proof.
  unfold labelled, Graph. cbv zeta.
  destruct r; cbn [relation_predicate];
    repeat match goal with
           |- context [if truthy ?v then _ else _] => destruct (truthy v)
           end;
    repeat first
      [ rewrite with_predicate_add_each_other by done
      | rewrite with_predicate_add, decide_False by done ];
    reflexivity.
Qed.

Lemma NoDup_build (b : built) :
  build URIRef_raises filename_raw post = Ok b → NoDup (g b).
Proof.
  intros (_ & _ & _ & ->)%build_inv.
  apply NoDup_exact_matches. do 3 apply NoDup_add_each. apply NoDup_labelled.
Qed.

(** The triples of one relation are the ones its loop inserted, in the
    order of the links. *)
Lemma build_relation (b : built) (r : relation) :
  build URIRef_raises filename_raw post = Ok b →
  parse_links (post_get post (relation_key r)) = Ok (relation_links r b)
  ∧ with_predicate (relation_predicate r) (g b) =
      add_each (λ link, (subject_uri, relation_predicate r, clean_uri link))
        [] (relation_links r b).
Proof.
  intros (Hb & Hn & Hr & ->)%build_inv. split; [by destruct r |].
  rewrite with_predicate_exact_matches_other by (by destruct r).
  destruct r; cbn [relation_predicate relation_links].
  - rewrite !with_predicate_add_each_other by done.
    rewrite with_predicate_add_each by done.
    pose proof (with_predicate_labelled Broader) as Hl.
    cbn [relation_predicate] in Hl. by rewrite Hl.
  - rewrite with_predicate_add_each_other by done.
    rewrite with_predicate_add_each by done.
    rewrite with_predicate_add_each_other by done.
    pose proof (with_predicate_labelled Narrower) as Hl.
    cbn [relation_predicate] in Hl. by rewrite Hl.
  - rewrite with_predicate_add_each by done.
    rewrite !with_predicate_add_each_other by done.
    pose proof (with_predicate_labelled Related) as Hl.
    cbn [relation_predicate] in Hl. by rewrite Hl.
Qed.

(** The exact-match triples are the ones made from the values the
    constructor accepted. *)
Lemma build_exact_match (b : built) (o : node) :
  build URIRef_raises filename_raw post = Ok b →
  (subject_uri, SKOS_exactMatch, o) ∈ g b
  ↔ ∃ uri, uri ∈ items_if_truthy (post_get post "exactMatch")
           ∧ URIRef_raises uri = false ∧ o = URIRef uri.
Proof.
  intros (_ & _ & _ & ->)%build_inv.
  rewrite elem_of_exact_matches. split.
  - intros [Hin|(uri & ? & ? & [= ->])]; [| by exists uri].
    exfalso. revert Hin. rewrite !elem_of_add_each.
    unfold labelled, Graph. cbv zeta.
    repeat match goal with
           |- context [if truthy ?v then _ else _] => destruct (truthy v)
           end;
      repeat first [rewrite elem_of_add | rewrite elem_of_add_each];
      rewrite ?elem_of_nil; intros Hin;
      repeat match type of Hin with
             | _ ∨ _ => destruct Hin as [Hin|Hin]
             | ∃ _, _ => destruct Hin as (? & _ & Hin)
             end;
      done.
  - intros (uri & ? & ? & ->). right. by exists uri.
Qed.

End BuildFacts.

(** ** Relations in the graph *)

Lemma parse_links_round_trip_example :
  parse_links (YList [YStr "[[Parent A]]"; YStr "Parent B"])
  = Ok ["Parent A"; "Parent B"].
Proof. reflexivity. Qed.

(** C6. With [broader: ["[[Parent A]]", "Parent B"]] in the front matter
    (and the same for [narrower] and [related]), whenever the other two
    relation fields can be parsed the graph is produced and its triples
    with that predicate are exactly two: the subject linked to the
    identifier built from the name [Parent A] and to the one built from
    [Parent B], which differ. *)
Theorem relation_round_trip (URIRef_raises : yaml → bool)
    (filename_raw : string) (post : gmap string yaml) (r : relation) :
  post !! relation_key r = Some (YList [YStr "[[Parent A]]"; YStr "Parent B"]) →
  (∀ r', r' ≠ r → ∃ links, parse_links (post_get post (relation_key r')) = Ok links) →
  ∃ b, build URIRef_raises filename_raw post = Ok b
       ∧ with_predicate (relation_predicate r) (g b) =
           [ (clean_uri filename_raw, relation_predicate r, clean_uri "Parent A");
             (clean_uri filename_raw, relation_predicate r, clean_uri "Parent B") ]
       ∧ clean_uri "Parent A" ≠ clean_uri "Parent B".
Proof.
  intros Hfield Hothers.
  assert (post_get post (relation_key r)
          = YList [YStr "[[Parent A]]"; YStr "Parent B"]) as Hget
    by (unfold post_get; by rewrite Hfield).
  destruct (build_ok URIRef_raises filename_raw post) as [b Hb].
  { intros r'. destruct (decide (r' = r)) as [->|Hne]; [| by apply Hothers].
    rewrite Hget. by eexists. }
  exists b. split; [done |]. split; [| discriminate].
  destruct (build_relation _ _ _ b r Hb) as [Hlinks ->].
  rewrite Hget, parse_links_round_trip_example in Hlinks.
  injection Hlinks as <-.
  unfold add_each. cbn [foldl].
  rewrite (add_fresh []) by apply not_elem_of_nil.
  rewrite add_fresh; [done |].
  intros [= ?]%list_elem_of_singleton.
Qed.

Lemma relation_round_trip_witness :
  ∃ b, build Sample.URIRef_raises "Child"
         {[ "broader" := YList [YStr "[[Parent A]]"; YStr "Parent B"];
            "related" := YStr "[[Liberty]]" ]} = Ok b
       ∧ with_predicate SKOS_broader (g b) =
           [ (clean_uri "Child", SKOS_broader,
              URIRef (YStr "http://example.org/kb/Parent-A"));
             (clean_uri "Child", SKOS_broader,
              URIRef (YStr "http://example.org/kb/Parent-B")) ].
Proof.
  destruct (relation_round_trip Sample.URIRef_raises "Child"
              {[ "broader" := YList [YStr "[[Parent A]]"; YStr "Parent B"];
                 "related" := YStr "[[Liberty]]" ]} Broader)
    as (b & Hb & Hg & _).
  - reflexivity.
  - intros r' _. destruct r'; by eexists.
  - exists b. split; [exact Hb | exact Hg].
Defined.

Lemma NoDup_count (l : graph) (t : triple) :
  NoDup l → t ∈ l → length (filter (λ t', t' = t) l) = 1%nat.
Proof.
  induction 1 as [|x l Hx Hl IH]; intros Hin.
  - by apply elem_of_nil in Hin.
  - apply elem_of_cons in Hin as [->|Hin].
    + rewrite filter_cons_True by done.
      destruct (filter (λ t', t' = x) l) as [|y k] eqn:Hf; [done |].
      assert (y ∈ filter (λ t', t' = x) l) as [-> ?]%list_elem_of_filter
        by (rewrite Hf; left).
      done.
    + rewrite filter_cons_False by (by intros ->). by apply IH.
Qed.

Lemma link_name_wrapped (X : string) :
  X ≠ EmptyString → str_forall name_char X = true →
  link_name ("[[" +:+ X +:+ "]]") = X.
Proof.
  intros Hne HX. unfold link_name.
  pose proof (re_search_first EmptyString ("[[" +:+ X +:+ "]]") X) as Hs.
  change (EmptyString +:+ ("[[" +:+ X +:+ "]]")) with ("[[" +:+ X +:+ "]]") in Hs.
  rewrite Hs; [done | |].
  - split_and!; [done.. |]. left. exists EmptyString.
    by rewrite (append_empty_r "]]").
  - intros p1 p2 Hp. by destruct p1, p2.
Qed.

(** C10. Inserting a triple keeps the graph free of duplicates, so the
    graph of every run is duplicate-free: each link of a relation field
    accounts for exactly one triple with the field's predicate and the
    link's identifier, however often the field lists it.  In particular
    [["[[X]]", "X"]] leaves a single triple. *)
Theorem graph_duplicate_free :
  (∀ (g0 : graph) t, NoDup g0 → NoDup (add g0 t))
  ∧ (∀ URIRef_raises filename_raw post b,
       build URIRef_raises filename_raw post = Ok b →
       NoDup (g b)
       ∧ ∀ r links link,
           parse_links (post_get post (relation_key r)) = Ok links →
           link ∈ links →
           length (filter (λ t, t = (clean_uri filename_raw,
                                     relation_predicate r,
                                     clean_uri link)) (g b)) = 1%nat)
  ∧ (∀ URIRef_raises filename_raw post b r X,
       X ≠ EmptyString → str_forall name_char X = true →
       post !! relation_key r = Some (YList [YStr ("[[" +:+ X +:+ "]]"); YStr X]) →
       build URIRef_raises filename_raw post = Ok b →
       with_predicate (relation_predicate r) (g b) =
         [(clean_uri filename_raw, relation_predicate r, clean_uri X)]).
Proof.
  split_and!.
  - apply NoDup_add.
  - intros raises fn post b Hb.
    pose proof (NoDup_build _ _ _ _ Hb) as Hnd. split; [done |].
    intros r links link Hlinks Hin.
    apply NoDup_count; [done |].
    destruct (build_relation _ _ _ b r Hb) as [Hl Hg].
    rewrite Hlinks in Hl. injection Hl as Hl. rewrite <- Hl in Hg.
    assert ((clean_uri fn, relation_predicate r, clean_uri link)
            ∈ with_predicate (relation_predicate r) (g b)) as Hw.
    { rewrite Hg. apply elem_of_add_each. right. by exists link. }
    by apply list_elem_of_filter in Hw as [_ ?].
  - intros raises fn post b r X Hne HX Hfield Hb.
    destruct (build_relation _ _ _ b r Hb) as [Hl ->].
    assert (post_get post (relation_key r)
            = YList [YStr ("[[" +:+ X +:+ "]]"); YStr X]) as Hget
      by (unfold post_get; by rewrite Hfield).
    rewrite Hget, parse_links_list in Hl.
    change [YStr ("[[" +:+ X +:+ "]]"); YStr X]
      with (YStr <$> ["[[" +:+ X +:+ "]]"; X]) in Hl.
    rewrite parse_items_strs in Hl. cbn [fmap list_fmap] in Hl.
    rewrite link_name_wrapped in Hl by done.
    rewrite link_name_bare in Hl
      by (by apply (str_forall_has_char name_char)).
    injection Hl as <-.
    unfold add_each. cbn [foldl].
    rewrite (add_fresh []) by apply not_elem_of_nil.
    rewrite add_present; [done | left].
Qed.

Lemma graph_duplicate_free_witness :
  ∃ b, build Sample.URIRef_raises "Child"
         {[ "broader" := YList [YStr "[[X]]"; YStr "X"] ]} = Ok b
       ∧ NoDup (g b)
       ∧ NoDup (add (g b) (clean_uri "Child", SKOS_broader, clean_uri "X"))
       ∧ length (filter (λ t, t = (clean_uri "Child", SKOS_broader, clean_uri "X"))
                   (g b)) = 1%nat
       ∧ with_predicate SKOS_broader (g b) =
           [(clean_uri "Child", SKOS_broader, clean_uri "X")].
Proof.
  destruct graph_duplicate_free as (Hadd & Hone & Htwice).
  eexists. split; [reflexivity |].
  set (post := {[ "broader" := YList [YStr "[[X]]"; YStr "X"] ]} : gmap string yaml).
  match goal with |- NoDup (g ?b) ∧ _ => set (b0 := b) end.
  assert (build Sample.URIRef_raises "Child" post = Ok b0) as Hb by reflexivity.
  destruct (Hone _ _ _ _ Hb) as [Hnd Hcount].
  split_and!.
  - exact Hnd.
  - by apply Hadd.
  - apply (Hcount Broader ["X"; "X"] "X"); [reflexivity | left].
  - by apply (Htwice Sample.URIRef_raises "Child" post b0 Broader "X").
Defined.

(** ** The page *)

Lemma join_app (l1 l2 : list string) : join (l1 ++ l2) = join l1 +:+ join l2.
Proof.
  induction l1 as [|x l1 IH]; [done |].
  cbn [join foldr app]. fold (join (l1 ++ l2)). fold (join l1).
  by rewrite IH, append_assoc.
Qed.

Lemma pieces_at_head_app (m l : list string) :
  pieces_at_head m l → ∃ rest, l = m ++ rest.
Proof.
  revert l. induction m as [|x m IH]; intros l.
  - by exists l.
  - destruct l as [|y l]; [done |]. intros [-> [rest ->]%IH]. by exists rest.
Qed.

Lemma pieces_within_occurs (m l : list string) :
  pieces_within m l → occurs_in (join m) (join l).
Proof.
  induction l as [|y l IH].
  - intros [[rest ->]%pieces_at_head_app|[]].
    exists EmptyString, (join rest). by rewrite join_app.
  - intros [[rest ->]%pieces_at_head_app|(before & after & Hl)%IH].
    + exists EmptyString, (join rest). by rewrite join_app.
    + exists (y +:+ before), after.
      cbn [join foldr]. fold (join l). by rewrite Hl, append_assoc.
Qed.

Lemma pieces_within_drop (n : nat) (m l : list string) :
  pieces_at_head m (drop n l) → pieces_within m l.
Proof.
  revert l. induction n as [|n IH]; intros l H.
  - destruct l; by left.
  - destruct l as [|y l]; [by left |]. right. by apply IH.
Qed.

(** Where the three sections start among the pieces of the template. *)
Lemma relation_section_in_page (r : relation)
    (filename_raw jsonld_data definition_text : string)
    (bl nl' rl : list string) (href text : string) :
  pieces_within
    (relation_section r (match r with Broader => bl | Narrower => nl' | Related => rl end))
    (html_pieces filename_raw jsonld_data definition_text bl nl' rl href text).
Proof.
  destruct r;
    [ apply (pieces_within_drop 103)
    | apply (pieces_within_drop 121)
    | apply (pieces_within_drop 138) ];
    cbn [drop html_pieces relation_section pieces_at_head]; by split_and!.
Qed.

(** C9. In the page of a run, each of the three relations has its
    heading followed by a list holding the rendering of the relation's
    link names, the names that link unwrapping returned and not the
    identifiers: the single item [None] when there is no name, and
    otherwise one link item per name, in order, whose target is the name
    with its spaces turned into hyphens followed by [.html] and whose
    text is the name. *)
Theorem page_relation_lists (URIRef_raises : yaml → bool)
    (serialize : graph → string) (format_value : yaml → string)
    (filename_raw : string) (post : gmap string yaml) (b : built) (r : relation) :
  build URIRef_raises filename_raw post = Ok b →
  parse_links (post_get post (relation_key r)) = Ok (relation_links r b)
  ∧ occurs_in (join (relation_section r (relation_links r b)))
      (html_content format_value filename_raw (serialize (g b)) post b)
  ∧ (relation_links r b = [] →
     make_list (relation_links r b) = "<li>None</li>")
  ∧ (relation_links r b ≠ [] →
     make_list (relation_links r b) =
       join ((λ l, "<li><a href=" +:+ dq +:+ str_replace " " "-" l +:+ ".html"
                   +:+ dq +:+ ">" +:+ l +:+ "</a></li>")
             <$> relation_links r b)).
Proof.
  intros Hb. split_and!.
  - by destruct (build_relation _ _ _ b r Hb).
  - apply pieces_within_occurs. unfold html_content.
    destruct r; cbn [relation_links].
    + apply (relation_section_in_page Broader).
    + apply (relation_section_in_page Narrower).
    + apply (relation_section_in_page Related).
  - by intros ->.
  - intros Hne. destruct (relation_links r b) as [|l links]; [done |].
    unfold make_list. f_equal.
Qed.

Lemma page_relation_lists_witness :
  ∃ b, build Sample.URIRef_raises "Democracy"
         {[ "broader" := YList [YStr "[[Rule of Law]]"] ]} = Ok b
       ∧ make_list (broader_links b) =
           "<li><a href=" +:+ dq +:+ "Rule-of-Law.html" +:+ dq +:+ ">Rule of Law</a></li>"
       ∧ make_list (narrower_links b) = "<li>None</li>"
       ∧ occurs_in
           ("                <h3>⬇ Narrower (Children)</h3>" +:+ nl +:+
            "                <ul><li>None</li></ul>")
           (html_content Sample.format_value "Democracy"
              (Sample.serialize (g b))
              {[ "broader" := YList [YStr "[[Rule of Law]]"] ]} b).
Proof.
  eexists. split; [reflexivity |].
  set (post := {[ "broader" := YList [YStr "[[Rule of Law]]"] ]} : gmap string yaml).
  match goal with |- make_list (broader_links ?b) = _ ∧ _ => set (b0 := b) end.
  assert (build Sample.URIRef_raises "Democracy" post = Ok b0) as Hb by reflexivity.
  split_and!.
  - destruct (page_relation_lists Sample.URIRef_raises Sample.serialize
                Sample.format_value "Democracy" post b0 Broader Hb)
      as (_ & _ & _ & Hitems).
    etrans; [apply Hitems; done | reflexivity].
  - destruct (page_relation_lists Sample.URIRef_raises Sample.serialize
                Sample.format_value "Democracy" post b0 Narrower Hb)
      as (_ & _ & Hnone & _).
    by apply Hnone.
  - destruct (page_relation_lists Sample.URIRef_raises Sample.serialize
                Sample.format_value "Democracy" post b0 Narrower Hb)
      as (_ & Hpage & _ & _).
    exact Hpage.
Defined.

(** ** The run *)

Lemma output_paths_differ (filename_raw : string) :
  filename_raw +:+ ".jsonld" ≠ filename_raw +:+ ".html".
Proof. intros H%append_inv_head. discriminate H. Qed.


(** Whatever [parse_links] raises is a [TypeError]. *)
Lemma parse_links_raises (v : yaml) (e : exn) :
  parse_links v = Raise e → e = TypeError.
Proof.
  assert (∀ items, parse_items items = Raise e → e = TypeError) as Hitems.
  { induction items as [|item items IH]; [done |].
    cbn [parse_items]. destruct item as [| | |s| |]; try by intros [= <-].
    cbn [parse_item mbind result_bind].
    destruct (parse_items items) as [rest|e'] eqn:Hrest; [done |].
    intros [= ->]. by apply IH. }
  unfold parse_links. destruct (negb (truthy v)); [done |].
  destruct v as [| | |s|items|]; try done; apply Hitems.
Qed.

(** An exception of [parse_links] on one relation field ends the
    builder with a [TypeError]. *)
Lemma build_raises (URIRef_raises : yaml → bool) (filename_raw : string)
    (post : gmap string yaml) (r : relation) (e : exn) :
  parse_links (post_get post (relation_key r)) = Raise e →
  build URIRef_raises filename_raw post = Raise TypeError.
Proof.
  intros Hr. unfold build.
  destruct (parse_links (post_get post "broader")) as [bl|eb] eqn:Hb.
  2: { by rewrite (parse_links_raises _ _ Hb). }
  destruct (parse_links (post_get post "narrower")) as [nl|en] eqn:Hn.
  2: { by rewrite (parse_links_raises _ _ Hn). }
  destruct (parse_links (post_get post "related")) as [rl|er] eqn:Hrel.
  2: { by rewrite (parse_links_raises _ _ Hrel). }
  destruct r; cbn [relation_key] in Hr; congruence.
Qed.

Section Run.

Variable URIRef_raises : yaml → bool.
Variable serialize : graph → string.
Variable format_value : yaml → string.
Variable frontmatter_load : string → result (gmap string yaml).

Let run := generate_hierarchical_skos URIRef_raises serialize format_value
             frontmatter_load.

(** Where nothing is refused, the export writes both files and prints
    both confirmations. *)
Lemma export_allowed (filename_raw : string) (post : gmap string yaml)
    (b : built) (w : world) :
  exports_allowed w filename_raw →
  export serialize format_value filename_raw post b w
  = (Returned,
     World (<[filename_raw +:+ ".html" :=
                html_content format_value filename_raw (serialize (g b)) post b]>
              (<[filename_raw +:+ ".jsonld" := serialize (g b)]> (files w)))
       (stdout w ++ confirmations filename_raw)
       (read_denied w) (write_denied w) (stdout_encodes w)).
Proof.
  intros (Hjson & Hhtml & Hfirst & Hsecond).
  unfold export, and_then, write_file, print.
  cbn [files stdout read_denied write_denied stdout_encodes].
  rewrite Hjson. cbn [files stdout read_denied write_denied stdout_encodes].
  rewrite Hfirst. cbn [files stdout read_denied write_denied stdout_encodes].
  rewrite Hhtml. cbn [files stdout read_denied write_denied stdout_encodes].
  rewrite Hsecond. unfold confirmations. by rewrite <- app_assoc.
Qed.

(** A run whose document opens and loads, whose graph is built and whose
    exports are not refused returns after writing both files and
    printing both confirmations. *)
Lemma run_complete (file_path text : string) (post : gmap string yaml)
    (b : built) (w : world) :
  opens w file_path text →
  frontmatter_load text = Ok post →
  build URIRef_raises (filename_of file_path) post = Ok b →
  exports_allowed w (filename_of file_path) →
  ∃ w', run file_path w = (Returned, w')
        ∧ files w' !! (filename_of file_path +:+ ".jsonld") = Some (serialize (g b))
        ∧ files w' !! (filename_of file_path +:+ ".html")
          = Some (html_content format_value (filename_of file_path)
                    (serialize (g b)) post b)
        ∧ stdout w' = stdout w ++ confirmations (filename_of file_path).
Proof.
  intros Hopen Hload Hb Hallowed. eexists. split_and!.
  - unfold run, generate_hierarchical_skos. rewrite Hopen, Hload, Hb.
    by apply export_allowed.
  - cbn [files].
    rewrite lookup_insert_ne
      by (intros H; symmetry in H; by apply output_paths_differ in H).
    by rewrite lookup_insert_eq.
  - cbn [files]. by rewrite lookup_insert_eq.
  - done.
Qed.

(** C7. A relation list holding an item that is not a string (a number,
    say) is not passed through: [re.search] raises [TypeError] on the
    item, nothing catches it, and the run ends with that exception
    before anything is written or printed.  The same value standing
    alone under the key, when it is no list, gives no link and no
    exception. *)
Theorem relation_list_item_raises (file_path text : string)
    (post : gmap string yaml) (w : world) (r : relation)
    (items : list yaml) (item : yaml) :
  opens w file_path text →
  frontmatter_load text = Ok post →
  post_get post (relation_key r) = YList items →
  item ∈ items →
  (∀ s, item ≠ YStr s) →
  parse_links (YList items) = Raise TypeError
  ∧ run file_path w = (Raised TypeError, w)
  ∧ ((∀ l, item ≠ YList l) → parse_links item = Ok []).
Proof.
  intros Hopen Hload Hfield Hin Hns.
  assert (parse_links (YList items) = Raise TypeError) as Hraise.
  { rewrite parse_links_list. by apply (parse_items_non_str items item). }
  split_and!.
  - done.
  - unfold run, generate_hierarchical_skos. rewrite Hopen, Hload.
    rewrite (build_raises _ _ post r TypeError); [done |].
    by rewrite Hfield.
  - intros Hnl. unfold parse_links. destruct (negb (truthy item)); [done |].
    destruct item as [| | |s|l|]; try done; [by destruct (Hns s) | by destruct (Hnl l)].
Qed.


End Run.

(** ** The model on documents *)

(** C3. The library's URI constructor does not raise on a string, so the
    handler around the [exactMatch] insertion never drops one: every
    string among the [exactMatch] values, well-formed or not, ends up as
    the object of an [exactMatch] triple of the graph. *)
Theorem malformed_exact_match_emitted (URIRef_raises : yaml → bool)
    (filename_raw : string) (post : gmap string yaml) (b : built) (s : string) :
  (∀ s', URIRef_raises (YStr s') = false) →
  YStr s ∈ items_if_truthy (post_get post "exactMatch") →
  build URIRef_raises filename_raw post = Ok b →
  (clean_uri filename_raw, SKOS_exactMatch, URIRef (YStr s)) ∈ g b.
Proof.
  intros Hstr Hin Hb. apply (build_exact_match _ _ _ _ _ Hb).
  exists (YStr s). by split_and!.
Qed.

Lemma malformed_exact_match_emitted_witness :
  ∃ b, build Sample.URIRef_raises "Democracy"
         {[ "exactMatch" := YStr "not a valid uri!!" ]} = Ok b
       ∧ ((clean_uri "Democracy", SKOS_exactMatch, URIRef (YStr "not a valid uri!!"))
          ∈ g b).
Proof.
  eexists. split; [reflexivity |].
  apply (malformed_exact_match_emitted Sample.URIRef_raises "Democracy"
           {[ "exactMatch" := YStr "not a valid uri!!" ]}).
  - by intros s'.
  - left.
  - reflexivity.
Defined.

Lemma relation_list_item_raises_witness :
  parse_links (YList [YStr "A"; YInt 5]) = Raise TypeError
  ∧ generate_hierarchical_skos Sample.URIRef_raises Sample.serialize
      Sample.format_value
      (Sample.frontmatter_load {[ "broader" := YList [YStr "A"; YInt 5] ]})
      "n.md" (Sample.world_with "n.md")
    = (Raised TypeError, Sample.world_with "n.md")
  ∧ parse_links (YInt 5) = Ok [].
Proof.
  destruct (relation_list_item_raises Sample.URIRef_raises Sample.serialize
              Sample.format_value
              (Sample.frontmatter_load {[ "broader" := YList [YStr "A"; YInt 5] ]})
              "n.md" "---" {[ "broader" := YList [YStr "A"; YInt 5] ]}
              (Sample.world_with "n.md") Broader [YStr "A"; YInt 5] (YInt 5))
    as (Hparse & Hrun & Hbare).
  - reflexivity.
  - reflexivity.
  - reflexivity.
  - right. left.
  - done.
  - split_and!; [exact Hparse | exact Hrun | by apply Hbare].
Defined.



(** C1, as stated, fails: a number under [aliases] is not dropped but
    becomes an alternate label, while the same number under [broader]
    gives no link. *)
Lemma aliases_number_kept :
  items_if_truthy (YInt 5) = [YInt 5]
  ∧ parse_links (YInt 5) = Ok []
  ∧ ∃ b, build Sample.URIRef_raises "n" {[ "aliases" := YInt 5 ]} = Ok b
         ∧ with_predicate SKOS_altLabel (g b)
           = [(clean_uri "n", SKOS_altLabel, Literal (YInt 5) LANG)].
Proof.
  split_and!; [reflexivity.. |].
  eexists. split; [reflexivity |]. vm_compute. reflexivity.
Qed.

(** The scenario of the spec: [Democracy.md]. *)
Example democracy_graph :
  build Sample.URIRef_raises "Democracy"
    {[ "aliases" := YList [YStr "Self-Rule"];
       "definition" := YStr "Rule by the people";
       "broader" := YList [YStr "[[Governance]]"];
       "narrower" := YList [];
       "related" := YList [YStr "[[Liberty]]"];
       "exactMatch" := YStr "http://www.wikidata.org/entity/Q7174" ]}
  = Ok (Built
          [ (clean_uri "Democracy", RDF_type, SKOS_Concept);
            (clean_uri "Democracy", SKOS_prefLabel, Literal (YStr "Democracy") "en");
            (clean_uri "Democracy", SKOS_altLabel, Literal (YStr "Self-Rule") "en");
            (clean_uri "Democracy", SKOS_definition,
             Literal (YStr "Rule by the people") "en");
            (clean_uri "Democracy", SKOS_broader,
             URIRef (YStr "http://example.org/kb/Governance"));
            (clean_uri "Democracy", SKOS_related,
             URIRef (YStr "http://example.org/kb/Liberty"));
            (clean_uri "Democracy", SKOS_exactMatch,
             URIRef (YStr "http://www.wikidata.org/entity/Q7174")) ]
          ["Governance"] [] ["Liberty"]).
Proof. vm_compute. reflexivity. Qed.

(** * Further properties of the code *)

(** ** Identifiers *)

(** X1. The text of every identifier is the namespace prefix followed by
    a suffix made only of ASCII letters, digits, [_.-~/] and percent
    signs: whatever the label holds, no space and no bracket reaches the
    URI. *)
Theorem clean_uri_suffix_chars (label : string) :
  clean_uri label = URIRef (YStr (BASE_URI +:+ uri_suffix label))
  ∧ str_forall (λ c, is_safe c || Ascii.eqb c "%") (uri_suffix label) = true
  ∧ has_char " " (uri_suffix label) = false
  ∧ has_char "[" (uri_suffix label) = false
  ∧ has_char "]" (uri_suffix label) = false.
Proof.
  unfold uri_suffix. split_and!; [reflexivity | apply quote_chars | ..];
    by apply quote_no_char.
Qed.

Lemma hex_value_digit (n : nat) : (n < 16)%nat → hex_value (hex_digit n) = n.
Proof.
  intros Hn. do 16 (destruct n as [|n]; [reflexivity |]). lia.
Qed.

Lemma percent_byte_inj (c d : ascii) : percent_byte c = percent_byte d → c = d.
Proof.
  unfold percent_byte.
  remember (nat_of_ascii c / 16)%nat as hc eqn:Ehc.
  remember (nat_of_ascii c mod 16)%nat as lc eqn:Elc.
  remember (nat_of_ascii d / 16)%nat as hd eqn:Ehd.
  remember (nat_of_ascii d mod 16)%nat as ld eqn:Eld.
  intros [= Hhi Hlo]. subst hc lc hd ld.
  pose proof (nat_ascii_bounded c) as Hc. pose proof (nat_ascii_bounded d) as Hd.
  apply (f_equal hex_value) in Hhi, Hlo.
  rewrite !hex_value_digit in Hhi
    by (apply Nat.Div0.div_lt_upper_bound; lia).
  rewrite !hex_value_digit in Hlo by (apply Nat.mod_upper_bound; lia).
  rewrite <- (ascii_nat_embedding c), <- (ascii_nat_embedding d). f_equal.
  rewrite (Nat.div_mod_eq (nat_of_ascii c) 16), (Nat.div_mod_eq (nat_of_ascii d) 16).
  by rewrite Hhi, Hlo.
Qed.

(** The encoding of a byte can be told from what follows it. *)
Lemma quote_byte_prefix_inj (c d : ascii) (r1 r2 : string) :
  quote_byte c +:+ r1 = quote_byte d +:+ r2 → c = d ∧ r1 = r2.
Proof.
  assert (∀ x y z x' y' z' : ascii,
            String x (String y (String z r1)) = String x' (String y' (String z' r2)) →
            String x (String y (String z EmptyString))
            = String x' (String y' (String z' EmptyString)) ∧ r1 = r2) as Hsplit
    by (by intros x y z x' y' z' [= -> -> -> ->]).
  unfold quote_byte.
  destruct (is_safe c) eqn:Hc, (is_safe d) eqn:Hd.
  - by intros [= -> ->].
  - unfold str1, percent_byte. intros [= -> _]. discriminate Hc.
  - unfold str1, percent_byte. intros [= <- _]. discriminate Hd.
  - unfold percent_byte at 1 2. intros [H ->]%Hsplit. split; [| done].
    by apply percent_byte_inj.
Qed.

Lemma quote_inj (s t : string) : quote s = quote t → s = t.
Proof.
  revert t. induction s as [|c s IH]; intros [|d t]; simpl.
  - done.
  - intros H. apply (f_equal String.length) in H.
    rewrite length_append in H. pose proof (quote_byte_length d). simpl in H. lia.
  - intros H. apply (f_equal String.length) in H.
    rewrite length_append in H. pose proof (quote_byte_length c). simpl in H. lia.
  - intros [-> ->%IH]%quote_byte_prefix_inj. done.
Qed.

(** X2. Two labels get the same identifier exactly when they are the same
    once their bracket pairs are removed and their spaces are hyphens:
    percent-encoding never merges two different names. *)
Theorem clean_uri_eq_iff (N M : string) :
  clean_uri N = clean_uri M
  ↔ str_replace " " "-" (strip_brackets N) = str_replace " " "-" (strip_brackets M).
Proof.
  unfold clean_uri, uri_suffix. split.
  - intros [= H]. by apply quote_inj.
  - by intros ->.
Qed.

Lemma replace1_step (a b c : ascii) (s : string) :
  str_replace (str1 a) (str1 b) (String c s)
  = String (if Ascii.eqb a c then b else c) (str_replace (str1 a) (str1 b) s).
Proof.
  unfold str_replace, str1. simpl.
  destruct (Ascii.eqb a c); reflexivity.
Qed.

Lemma replace1_no_char (a b : ascii) (s : string) :
  a ≠ b → has_char a (str_replace (str1 a) (str1 b) s) = false.
Proof.
  intros Hab. induction s as [|c s IH]; [done |].
  rewrite replace1_step. simpl. rewrite IH, orb_false_r.
  destruct (Ascii.eqb_spec a c) as [->|Hac].
  - by apply Ascii.eqb_neq.
  - by apply Ascii.eqb_neq.
Qed.

Lemma replace1_length (a b : ascii) (s : string) :
  String.length (str_replace (str1 a) (str1 b) s) = String.length s.
Proof.
  induction s as [|c s IH]; [done |].
  rewrite replace1_step. simpl. by rewrite IH.
Qed.

(** Replacing one character by another commutes with the removal of a
    pair of a third character. *)
Lemma replace2_replace1_comm (x a b : ascii) (s : string) :
  a ≠ x → b ≠ x →
  str_replace (String x (String x EmptyString)) EmptyString
    (str_replace (str1 a) (str1 b) s)
  = str_replace (str1 a) (str1 b)
      (str_replace (String x (String x EmptyString)) EmptyString s).
Proof.
  intros Hax Hbx.
  assert (∀ c, Ascii.eqb x (if Ascii.eqb a c then b else c) = Ascii.eqb x c) as Hf.
  { intros c. destruct (Ascii.eqb_spec a c) as [<-|]; [| done].
    rewrite (proj2 (Ascii.eqb_neq x b)) by done.
    by rewrite (proj2 (Ascii.eqb_neq x a)). }
  set (r := str_replace (String x (String x EmptyString)) EmptyString).
  set (h := str_replace (str1 a) (str1 b)).
  cut (r (h s) = h (r s) ∧ ∀ c, r (h (String c s)) = h (r (String c s))).
  { by intros [H _]. }
  induction s as [|d s [IH1 IH2]].
  - split; [done |]. intros c. unfold h, r.
    rewrite replace1_step.
    change (str_replace (str1 a) (str1 b) EmptyString) with EmptyString.
    fold (str1 (if Ascii.eqb a c then b else c)). fold (str1 c).
    rewrite !replace2_single.
    change (str1 c) with (String c EmptyString). by rewrite replace1_step.
  - split; [apply IH2 |]. intros c. unfold h, r.
    rewrite !replace1_step, !replace2_step, !Hf.
    destruct (Ascii.eqb x c && Ascii.eqb x d); [exact IH1 |].
    rewrite replace1_step. f_equal.
    specialize (IH2 d). unfold h, r in IH2. by rewrite replace1_step in IH2.
Qed.

(** X3. Turning the spaces of a label into hyphens beforehand does not
    change its identifier: two names that differ only in spaces versus
    hyphens share one URI. *)
Theorem clean_uri_space_hyphen (N : string) :
  clean_uri (str_replace " " "-" N) = clean_uri N.
Proof.
  apply clean_uri_eq_iff. unfold strip_brackets.
  change " " with (str1 " "). change "-" with (str1 "-").
  rewrite (replace2_replace1_comm "[" " " "-") by done.
  rewrite (replace2_replace1_comm "]" " " "-") by done.
  apply replace1_absent. by apply replace1_no_char.
Qed.

Lemma replace2_length (x : ascii) (s : string) :
  (String.length (str_replace (String x (String x EmptyString)) EmptyString s)
   ≤ String.length s)%nat.
Proof.
  set (r := str_replace (String x (String x EmptyString)) EmptyString).
  cut ((String.length (r s) ≤ String.length s)%nat
       ∧ ∀ c, (String.length (r (String c s)) ≤ S (String.length s))%nat).
  { by intros [H _]. }
  induction s as [|d s [IH1 IH2]].
  - split; [done |]. intros c. unfold r. fold (str1 c).
    by rewrite replace2_single.
  - split; [apply IH2 |]. intros c. unfold r. rewrite replace2_step.
    destruct (Ascii.eqb x c && Ascii.eqb x d).
    + fold r. simpl. lia.
    + fold r. simpl. specialize (IH2 d). simpl in IH2. lia.
Qed.

Lemma quote_length_upper (s : string) :
  (String.length (quote s) ≤ 3 * String.length s)%nat.
Proof.
  induction s as [|c s IH]; [done |].
  simpl quote. rewrite length_append.
  assert (String.length (quote_byte c) ≤ 3)%nat
    by (unfold quote_byte; destruct (is_safe c); simpl; lia).
  simpl String.length. lia.
Qed.

(** X4. Lengths counted in bytes, the label in its UTF-8 encoding: the
    suffix of an identifier (which is ASCII) is at most three times as
    long as the label it is built from, and the whole URI at most the 22
    bytes of the prefix longer than that. *)
Theorem uri_suffix_length (label : string) :
  (String.length (uri_suffix label) ≤ 3 * String.length label)%nat
  ∧ (String.length (BASE_URI +:+ uri_suffix label)
     ≤ 22 + 3 * String.length label)%nat.
Proof.
  assert (String.length (uri_suffix label) ≤ 3 * String.length label)%nat as H.
  { unfold uri_suffix, strip_brackets.
    etrans; [apply quote_length_upper |].
    change " " with (str1 " "). change "-" with (str1 "-").
    rewrite replace1_length.
    pose proof (replace2_length "]" (str_replace "[[" EmptyString label)).
    pose proof (replace2_length "[" label). lia. }
  split; [done |]. rewrite length_append.
  change (String.length BASE_URI) with 22%nat. lia.
Qed.

(** ** Link unwrapping *)

Lemma re_search_some (s name : string) :
  re_search s = Some name → ∃ p1 p2, s = p1 +:+ p2 ∧ wiki_link name p2.
Proof.
  induction s as [|c s IH]; cbn [re_search].
  - destruct (match_here EmptyString) as [n|] eqn:Hm; [| done].
    intros [= ->]. exists EmptyString, EmptyString.
    split; [done | by apply match_here_spec].
  - destruct (match_here (String c s)) as [n|] eqn:Hm.
    + intros [= ->]. exists EmptyString, (String c s).
      split; [done | by apply match_here_spec].
    + intros (p1 & p2 & -> & Hl)%IH. by exists (String c p1), p2.
Qed.

Lemma wiki_link_occurs (name s : string) : wiki_link name s → occurs_in name s.
Proof.
  intros (_ & _ & [[rest ->] | (alias & rest & _ & _ & ->)]).
  - by exists "[[", ("]]" +:+ rest).
  - by exists "[[", ("|" +:+ alias +:+ "]]" +:+ rest).
Qed.

(** X5. A name that unwrapping takes out of an item is a non-empty piece
    of the item without bar or closing bracket, so unwrapping it again
    changes nothing: unwrapping is idempotent on every string. *)
Theorem link_name_idempotent (item : string) :
  link_name (link_name item) = link_name item
  ∧ (link_name item ≠ item →
     link_name item ≠ EmptyString
     ∧ has_char "|" (link_name item) = false
     ∧ has_char "]" (link_name item) = false
     ∧ occurs_in (link_name item) item).
Proof.
  unfold link_name at 2 3 4 5 6 7 8.
  destruct (re_search item) as [name|] eqn:Hs.
  - apply re_search_some in Hs as (p1 & p2 & -> & Hl).
    pose proof Hl as (Hne & Hchars & _).
    assert (has_char "]" name = false) as Hclose
      by (by apply (str_forall_has_char name_char)).
    split; [by apply link_name_bare |]. intros _. split_and!; [done | | done |].
    + by apply (str_forall_has_char name_char).
    + destruct (wiki_link_occurs _ _ Hl) as (before & after & ->).
      exists (p1 +:+ before), after. by rewrite append_assoc.
  - split; [| done]. unfold link_name. by rewrite Hs.
Qed.

Lemma link_name_idempotent_witness :
  link_name (link_name "see [[Rule of Law|law]]") = "Rule of Law"
  ∧ has_char "|" (link_name "see [[Rule of Law|law]]") = false
  ∧ occurs_in (link_name "see [[Rule of Law|law]]") "see [[Rule of Law|law]]".
Proof.
  destruct (link_name_idempotent "see [[Rule of Law|law]]") as [Hidem Hname].
  destruct Hname as (_ & Hbar & _ & Hocc); [discriminate |].
  split_and!; [by rewrite Hidem | exact Hbar | exact Hocc].
Defined.

(** X6. When [parse_links] returns for a list, every item of the list was
    a string and the result holds exactly one name per item, in the order
    of the items: the link name of each. *)
Theorem parse_links_list_inv (items : list yaml) (links : list string) :
  parse_links (YList items) = Ok links →
  Forall2 (λ item link, ∃ s, item = YStr s ∧ link = link_name s) items links
  ∧ length links = length items.
Proof.
  rewrite parse_links_list. intros H.
  assert (Forall2 (λ item link, ∃ s, item = YStr s ∧ link = link_name s)
            items links) as HF.
  { revert links H. induction items as [|item items IH]; intros links.
    - intros [= <-]. constructor.
    - cbn [parse_items]. destruct item as [| | |s| |]; try done.
      cbn [parse_item mbind result_bind].
      destruct (parse_items items) as [rest|] eqn:Hrest; [| done].
      intros [= <-]. constructor; [by exists s | by apply IH]. }
  split; [done |]. symmetry. by eapply Forall2_length.
Qed.

Lemma parse_links_list_inv_witness :
  Forall2 (λ item link, ∃ s, item = YStr s ∧ link = link_name s)
    [YStr "[[A|a]]"; YStr "B"] ["A"; "B"].
Proof.
  by destruct (parse_links_list_inv [YStr "[[A|a]]"; YStr "B"] ["A"; "B"] eq_refl).
Defined.

(** X7. A non-empty string under a relation key is read exactly like the
    one-item list holding it.  The empty string is the exception: bare,
    it gives no link at all, but inside a list it gives the empty name,
    whose identifier is the namespace prefix itself. *)
Theorem parse_links_single_string :
  (∀ s, s ≠ EmptyString → parse_links (YStr s) = parse_links (YList [YStr s]))
  ∧ parse_links (YStr EmptyString) = Ok []
  ∧ parse_links (YList [YStr EmptyString]) = Ok [EmptyString]
  ∧ clean_uri EmptyString = URIRef (YStr BASE_URI).
Proof.
  split_and!; [| reflexivity..]. intros s Hs. by destruct s.
Qed.

Lemma parse_links_single_string_witness :
  parse_links (YStr "[[A]]") = parse_links (YList [YStr "[[A]]"]).
Proof. by apply (proj1 parse_links_single_string). Defined.

(** ** File names *)

Lemma basename_no_separator (p : string) : has_char "/" (basename p) = false.
Proof.
  induction p as [|c p IH]; [done |].
  cbn [basename]. destruct (has_char "/" p) eqn:Hp; [done |].
  destruct (Ascii.eqb c "/") eqn:Hc; [done |].
  simpl. by rewrite Hc, Hp.
Qed.

Lemma before_last_dot_no_char (x : ascii) (p : string) :
  has_char x p = false → has_char x (before_last_dot p) = false.
Proof.
  induction p as [|c p IH]; [done |].
  simpl. intros [Hc Hp]%orb_false_iff.
  destruct (has_char "." p).
  - simpl. by rewrite Hc, IH.
  - destruct (Ascii.eqb c "."); [done |]. simpl. by rewrite Hc, Hp.
Qed.

(** X8. The base name a run derives from its argument never holds a path
    separator, whatever directories the argument names: both output files
    are created in the current directory. *)
Theorem filename_of_no_separator (file_path : string) :
  has_char "/" (filename_of file_path) = false
  ∧ has_char "/" (filename_of file_path +:+ ".jsonld") = false
  ∧ has_char "/" (filename_of file_path +:+ ".html") = false.
Proof.
  assert (has_char "/" (filename_of file_path) = false) as H.
  { unfold filename_of, splitext_root.
    pose proof (basename_no_separator file_path) as Hb.
    destruct (_ && _); [by apply before_last_dot_no_char | done]. }
  split_and!; [done | ..]; by rewrite has_char_append, H.
Qed.

Lemma basename_after_separator (dir rest : string) :
  has_char "/" rest = false → basename (dir +:+ "/" +:+ rest) = rest.
Proof.
  intros Hrest. induction dir as [|c dir IH].
  - simpl. by rewrite Hrest.
  - change (String c dir +:+ "/" +:+ rest) with (String c (dir +:+ "/" +:+ rest)).
    cbn [basename]. rewrite has_char_append. simpl has_char at 2.
    by rewrite orb_true_r.
Qed.

Lemma basename_plain (p : string) : has_char "/" p = false → basename p = p.
Proof.
  induction p as [|c p IH]; [done |].
  simpl. intros [Hc Hp]%orb_false_iff. by rewrite Hp, Hc.
Qed.

Lemma before_last_dot_ext (stem ext : string) :
  has_char "." ext = false → before_last_dot (stem +:+ "." +:+ ext) = stem.
Proof.
  intros Hext. induction stem as [|c stem IH].
  - simpl. by rewrite Hext.
  - change (String c stem +:+ "." +:+ ext) with (String c (stem +:+ "." +:+ ext)).
    cbn [before_last_dot]. rewrite has_char_append. simpl has_char at 2.
    by rewrite orb_true_r, IH.
Qed.

(** X9. For a path [dir/stem.ext], or [stem.ext] alone, the base name is
    [stem]: only the last extension is removed (the stem may hold dots
    itself), provided the stem has no separator and is not made of dots
    only, and the extension has neither dot nor separator. *)
Theorem filename_of_stem (dir stem ext : string) :
  has_char "/" stem = false →
  str_forall (Ascii.eqb ".") stem = false →
  has_char "." ext = false →
  has_char "/" ext = false →
  filename_of (dir +:+ "/" +:+ stem +:+ "." +:+ ext) = stem
  ∧ filename_of (stem +:+ "." +:+ ext) = stem.
Proof.
  intros Hstem Hdots Hext Hsep.
  assert (has_char "/" (stem +:+ "." +:+ ext) = false) as Hname
    by (by rewrite !has_char_append, Hstem, Hsep).
  assert (splitext_root (stem +:+ "." +:+ ext) = stem) as Hroot.
  { unfold splitext_root. rewrite before_last_dot_ext by done.
    rewrite !has_char_append. simpl has_char at 2.
    by rewrite orb_true_r, Hdots. }
  unfold filename_of. split.
  - by rewrite basename_after_separator.
  - by rewrite basename_plain.
Qed.

Lemma filename_of_stem_witness :
  filename_of ("vault/notes" +:+ "/" +:+ "Climate Change.v2" +:+ "." +:+ "md")
  = "Climate Change.v2".
Proof.
  by apply (proj1 (filename_of_stem "vault/notes" "Climate Change.v2" "md"
                     eq_refl eq_refl eq_refl eq_refl)).
Defined.

(** ** The graph of a run *)

Lemma Forall_add (P : triple → Prop) (g0 : graph) (t : triple) :
  Forall P g0 → P t → Forall P (add g0 t).
Proof.
  intros Hg Ht. unfold add. destruct (decide (t ∈ g0)); [done |].
  apply Forall_app. split; [done |]. by constructor.
Qed.

Lemma Forall_add_each {A} (P : triple → Prop) (mk : A → triple)
    (g0 : graph) (xs : list A) :
  Forall P g0 → (∀ x, P (mk x)) → Forall P (add_each mk g0 xs).
Proof.
  intros Hg Hmk. revert g0 Hg. induction xs as [|x xs IH]; intros g0 Hg; [done |].
  apply IH. by apply Forall_add.
Qed.

Lemma Forall_exact_matches (P : triple → Prop) (URIRef_raises : yaml → bool)
    (subject_uri : node) (g0 : graph) (items : list yaml) :
  Forall P g0 → (∀ uri, P (subject_uri, SKOS_exactMatch, URIRef uri)) →
  Forall P (foldl (add_exact_match URIRef_raises subject_uri) g0 items).
Proof.
  intros Hg Hmk. revert g0 Hg. induction items as [|u items IH]; intros g0 Hg; [done |].
  cbn [foldl]. apply IH. unfold add_exact_match.
  destruct (URIRef_raises u); [done | by apply Forall_add].
Qed.

Lemma with_predicate_exact_matches (URIRef_raises : yaml → bool)
    (subject_uri : node) (g0 : graph) (items : list yaml) :
  with_predicate SKOS_exactMatch
    (foldl (add_exact_match URIRef_raises subject_uri) g0 items)
  = foldl (add_exact_match URIRef_raises subject_uri)
      (with_predicate SKOS_exactMatch g0) items.
Proof.
  revert g0. induction items as [|u items IH]; intros g0; [done |].
  cbn [foldl]. rewrite IH. f_equal. unfold add_exact_match.
  destruct (URIRef_raises u); [done |].
  by rewrite with_predicate_add, decide_True.
Qed.

(** Normalizes [with_predicate p] of a graph made by the builder, for a
    given predicate [p]. *)
Ltac with_predicate_steps :=
  repeat match goal with
         | |- context [if truthy ?v then _ else _] => destruct (truthy v) eqn:?
         end;
  repeat first
    [ rewrite with_predicate_exact_matches_other by done
    | rewrite with_predicate_exact_matches
    | rewrite with_predicate_add_each_other by done
    | rewrite with_predicate_add_each by done
    | rewrite with_predicate_add, decide_False by done
    | rewrite with_predicate_add, decide_True by done ].

(** X10. Every triple of the graph of a run has the document's own
    identifier as subject: the run describes one concept and states
    nothing about any other. *)
Theorem graph_single_subject (URIRef_raises : yaml → bool)
    (filename_raw : string) (post : gmap string yaml) (b : built) :
  build URIRef_raises filename_raw post = Ok b →
  ∀ t, t ∈ g b → t.1.1 = clean_uri filename_raw.
Proof.
  intros (_ & _ & _ & Hg)%build_inv. cbv zeta in Hg.
  apply Forall_forall. rewrite Hg.
  apply Forall_exact_matches; [| done].
  do 3 (apply Forall_add_each; [| done]).
  repeat match goal with
         | |- context [if truthy ?v then _ else _] => destruct (truthy v)
         end;
    repeat first [ apply Forall_add_each; [| done]
                 | apply Forall_add; [| done]
                 | apply Forall_nil_2 ].
Qed.

Lemma graph_single_subject_witness :
  ∃ b, build Sample.URIRef_raises "Child"
         {[ "broader" := YStr "[[Parent]]"; "aliases" := YStr "Kid" ]} = Ok b
       ∧ ∀ t, t ∈ g b → t.1.1 = clean_uri "Child".
Proof.
  eexists. split; [reflexivity |].
  by apply (graph_single_subject Sample.URIRef_raises "Child"
              {[ "broader" := YStr "[[Parent]]"; "aliases" := YStr "Kid" ]}).
Defined.

(** X11. The graph of every run types the concept exactly once and gives
    it exactly one preferred label, the raw base name tagged with the
    language, whatever the front matter holds. *)
Theorem graph_type_and_label (URIRef_raises : yaml → bool)
    (filename_raw : string) (post : gmap string yaml) (b : built) :
  build URIRef_raises filename_raw post = Ok b →
  with_predicate RDF_type (g b)
  = [(clean_uri filename_raw, RDF_type, SKOS_Concept)]
  ∧ with_predicate SKOS_prefLabel (g b)
    = [(clean_uri filename_raw, SKOS_prefLabel, Literal (YStr filename_raw) LANG)].
Proof.
  intros (_ & _ & _ & Hg)%build_inv. cbv zeta in Hg. rewrite Hg. unfold Graph.
  split; with_predicate_steps; reflexivity.
Qed.

Lemma graph_type_and_label_witness :
  ∃ b, build Sample.URIRef_raises "Democracy"
         {[ "aliases" := YList [YStr "Democracy"]; "related" := YStr "Liberty" ]} = Ok b
       ∧ with_predicate SKOS_prefLabel (g b)
         = [(clean_uri "Democracy", SKOS_prefLabel, Literal (YStr "Democracy") "en")].
Proof.
  eexists. split; [reflexivity |].
  by apply (graph_type_and_label Sample.URIRef_raises "Democracy"
              {[ "aliases" := YList [YStr "Democracy"]; "related" := YStr "Liberty" ]}).
Defined.

(** X12. The graph holds a definition triple exactly when the
    [definition] value is truthy, and then a single one whose literal is
    that value; the same for [scopeNote].  A key that is missing, null,
    empty, zero or false adds nothing. *)
Theorem graph_definition_and_note (URIRef_raises : yaml → bool)
    (filename_raw : string) (post : gmap string yaml) (b : built) :
  build URIRef_raises filename_raw post = Ok b →
  with_predicate SKOS_definition (g b)
  = (if truthy (post_get post "definition")
     then [(clean_uri filename_raw, SKOS_definition,
            Literal (post_get post "definition") LANG)]
     else [])
  ∧ with_predicate SKOS_scopeNote (g b)
    = (if truthy (post_get post "scopeNote")
       then [(clean_uri filename_raw, SKOS_scopeNote,
              Literal (post_get post "scopeNote") LANG)]
       else []).
Proof.
  intros (_ & _ & _ & Hg)%build_inv. cbv zeta in Hg. rewrite Hg. unfold Graph.
  split; with_predicate_steps; reflexivity.
Qed.

Lemma graph_definition_and_note_witness :
  ∃ b, build Sample.URIRef_raises "Democracy"
         {[ "definition" := YStr EmptyString; "scopeNote" := YStr "Politics only" ]} = Ok b
       ∧ with_predicate SKOS_definition (g b) = []
       ∧ with_predicate SKOS_scopeNote (g b)
         = [(clean_uri "Democracy", SKOS_scopeNote, Literal (YStr "Politics only") "en")].
Proof.
  eexists. split; [reflexivity |].
  match goal with |- with_predicate _ (g ?b) = _ ∧ _ => set (b0 := b) end.
  assert (build Sample.URIRef_raises "Democracy"
            {[ "definition" := YStr EmptyString; "scopeNote" := YStr "Politics only" ]}
          = Ok b0) as Hb by reflexivity.
  destruct (graph_definition_and_note _ _ _ _ Hb) as [Hd Hn].
  split; [exact Hd | exact Hn].
Defined.



(** X14. For each of [broader], [narrower] and [related], the objects the
    graph links the concept to under that predicate are exactly the
    identifiers of the names unwrapped from that field; no other field
    contributes to them. *)
Theorem graph_relation_objects (URIRef_raises : yaml → bool)
    (filename_raw : string) (post : gmap string yaml) (b : built) (r : relation) :
  build URIRef_raises filename_raw post = Ok b →
  parse_links (post_get post (relation_key r)) = Ok (relation_links r b)
  ∧ ∀ t, (t ∈ g b ∧ t.1.2 = relation_predicate r)
         ↔ (∃ link, link ∈ relation_links r b
                    ∧ t = (clean_uri filename_raw, relation_predicate r, clean_uri link)).
Proof.
  intros Hb. destruct (build_relation _ _ _ b r Hb) as [Hlinks Hg].
  split; [done |]. intros t.
  assert (t ∈ with_predicate (relation_predicate r) (g b)
          ↔ t ∈ g b ∧ t.1.2 = relation_predicate r) as <-.
  { unfold with_predicate. rewrite list_elem_of_filter. tauto. }
  rewrite Hg, elem_of_add_each, elem_of_nil.
  split; [by intros [[]|?] | by right].
Qed.

Lemma graph_relation_objects_witness :
  ∃ b, build Sample.URIRef_raises "Child"
         {[ "narrower" := YList [YStr "[[Toy|toys]]"]; "broader" := YStr "Parent" ]} = Ok b
       ∧ ((clean_uri "Child", SKOS_narrower, clean_uri "Toy") ∈ g b).
Proof.
  eexists. split; [reflexivity |].
  match goal with |- _ ∈ g ?b => set (b0 := b) end.
  assert (build Sample.URIRef_raises "Child"
            {[ "narrower" := YList [YStr "[[Toy|toys]]"]; "broader" := YStr "Parent" ]}
          = Ok b0) as Hb by reflexivity.
  apply (proj2 (proj2 (graph_relation_objects _ _ _ _ Narrower Hb) _)).
  exists "Toy". split; [left | reflexivity].
Defined.

(** X15. A relation field that is missing, null, empty or otherwise
    falsy, or that is neither a string nor a list, contributes no name:
    the graph has no triple with the field's predicate and the page shows
    the [None] item for it. *)
Theorem graph_relation_absent (URIRef_raises : yaml → bool)
    (filename_raw : string) (post : gmap string yaml) (b : built) (r : relation) :
  build URIRef_raises filename_raw post = Ok b →
  truthy (post_get post (relation_key r)) = false
  ∨ ((∀ s, post_get post (relation_key r) ≠ YStr s)
     ∧ (∀ l, post_get post (relation_key r) ≠ YList l)) →
  relation_links r b = []
  ∧ with_predicate (relation_predicate r) (g b) = []
  ∧ make_list (relation_links r b) = "<li>None</li>".
Proof.
  intros Hb Hshape. destruct (build_relation _ _ _ b r Hb) as [Hlinks Hg].
  assert (relation_links r b = []) as Hnil.
  { assert (parse_links (post_get post (relation_key r)) = Ok []) as Hp.
    { unfold parse_links. destruct Hshape as [-> | [Hs Hl]]; [done |].
      destruct (negb _); [done |].
      destruct (post_get post (relation_key r)) as [| | |s|l|]; try done.
      - by destruct (Hs s).
      - by destruct (Hl l). }
    rewrite Hp in Hlinks. by injection Hlinks. }
  by rewrite Hg, Hnil.
Qed.

Lemma graph_relation_absent_witness :
  ∃ b, build Sample.URIRef_raises "Child" {[ "related" := YInt 7 ]} = Ok b
       ∧ with_predicate SKOS_broader (g b) = []
       ∧ with_predicate SKOS_related (g b) = []
       ∧ make_list (related_links b) = "<li>None</li>".
Proof.
  eexists. split; [reflexivity |].
  match goal with |- with_predicate _ (g ?b) = _ ∧ _ => set (b0 := b) end.
  assert (build Sample.URIRef_raises "Child" {[ "related" := YInt 7 ]} = Ok b0)
    as Hb by reflexivity.
  destruct (graph_relation_absent _ _ _ _ Broader Hb) as (_ & Hbroader & _);
    [by left |].
  destruct (graph_relation_absent _ _ _ _ Related Hb) as (_ & Hrelated & Hnone);
    [by right |].
  split_and!; [exact Hbroader | exact Hrelated | exact Hnone].
Defined.

(** ** Links, identifiers and pages together *)

Lemma link_name_aliased (N alias : string) :
  N ≠ EmptyString → str_forall name_char N = true →
  alias ≠ EmptyString → str_forall alias_char alias = true →
  link_name ("[[" +:+ N +:+ "|" +:+ alias +:+ "]]") = N.
Proof.
  intros HN Hchars Ha Halias. unfold link_name.
  pose proof (re_search_first EmptyString
                ("[[" +:+ N +:+ "|" +:+ alias +:+ "]]") N) as Hs.
  change (EmptyString +:+ ("[[" +:+ N +:+ "|" +:+ alias +:+ "]]"))
    with ("[[" +:+ N +:+ "|" +:+ alias +:+ "]]") in Hs.
  rewrite Hs; [done | |].
  - split_and!; [done.. |]. right. exists alias, EmptyString.
    by rewrite (append_empty_r "]]").
  - intros p1 p2 Hp. by destruct p1, p2.
Qed.

Lemma not_only_dots (N : string) :
  N ≠ EmptyString → has_char "." N = false → str_forall (Ascii.eqb ".") N = false.
Proof.
  destruct N as [|c N]; [done |]. cbn [str_forall has_char].
  intros _ [Hc _]%orb_false_iff. by rewrite Ascii.eqb_sym, Hc.
Qed.

Lemma filename_of_markdown (N : string) :
  N ≠ EmptyString → has_char "/" N = false → has_char "." N = false →
  filename_of (N +:+ ".md") = N.
Proof.
  intros HN Hsep Hdot. unfold filename_of.
  rewrite basename_plain by (by rewrite has_char_append, Hsep).
  unfold splitext_root.
  change (N +:+ ".md") with (N +:+ "." +:+ "md").
  rewrite before_last_dot_ext by done.
  rewrite !has_char_append. simpl has_char at 2.
  by rewrite orb_true_r, not_only_dots.
Qed.

(** X16. A wiki link to a name, with or without display alias, resolves
    to the very identifier that the document of that name gets as its
    subject: for a name [N] that can be both a link name and a file stem,
    the object built from [[[N]]] or [[[N|alias]]] equals the subject of
    a run on [N.md]. *)
Theorem link_resolves_to_subject (N alias : string) :
  N ≠ EmptyString → str_forall name_char N = true →
  has_char "/" N = false → has_char "." N = false →
  alias ≠ EmptyString → str_forall alias_char alias = true →
  clean_uri (link_name ("[[" +:+ N +:+ "]]")) = clean_uri (filename_of (N +:+ ".md"))
  ∧ clean_uri (link_name ("[[" +:+ N +:+ "|" +:+ alias +:+ "]]"))
    = clean_uri (filename_of (N +:+ ".md")).
Proof.
  intros HN Hchars Hsep Hdot Ha Halias.
  rewrite filename_of_markdown by done.
  by rewrite link_name_wrapped, link_name_aliased.
Qed.

Lemma link_resolves_to_subject_witness :
  clean_uri (link_name "[[Rule of Law|the law]]")
  = clean_uri (filename_of "Rule of Law.md").
Proof.
  by apply (proj2 (link_resolves_to_subject "Rule of Law" "the law"
                     ltac:(done) eq_refl eq_refl eq_refl ltac:(done) eq_refl)).
Defined.

Lemma hyphenate_safe (l : string) :
  str_forall (λ c, is_safe c || Ascii.eqb c " ") l = true →
  str_forall is_safe (str_replace (str1 " ") (str1 "-") l) = true.
Proof.
  induction l as [|c l IH]; [done |].
  rewrite replace1_step. cbn [str_forall]. intros [Hc Hl]%andb_true_iff.
  rewrite (IH Hl), andb_true_r.
  destruct (Ascii.eqb_spec " " c) as [<-|Hne]; [reflexivity |].
  apply orb_true_iff in Hc as [Hc|Hc]; [done |].
  apply Ascii.eqb_eq in Hc. congruence.
Qed.

(** X17. For a name made of letters, digits, [_.-~/] and spaces, the page
    links to the file named like the suffix of the name's identifier plus
    [.html]: page links and identifiers follow the same hyphenation. *)
Theorem page_target_is_suffix (l : string) :
  str_forall (λ c, is_safe c || Ascii.eqb c " ") l = true →
  str_replace " " "-" l = uri_suffix l
  ∧ list_item l
    = "<li><a href=" +:+ dq +:+ uri_suffix l +:+ ".html" +:+ dq +:+ ">" +:+ l
      +:+ "</a></li>".
Proof.
  intros Hl.
  assert (str_replace " " "-" l = uri_suffix l) as Heq.
  { unfold uri_suffix, strip_brackets.
    rewrite (replace2_absent "[" "[")
      by (by apply (str_forall_has_char (λ c, is_safe c || Ascii.eqb c " "))).
    rewrite (replace2_absent "]" "]")
      by (by apply (str_forall_has_char (λ c, is_safe c || Ascii.eqb c " "))).
    symmetry. apply quote_fixed_iff. by apply hyphenate_safe. }
  split; [done |]. unfold list_item. by rewrite Heq.
Qed.

Lemma page_target_is_suffix_witness :
  list_item "Rule of Law"
  = "<li><a href=" +:+ dq +:+ "Rule-of-Law.html" +:+ dq +:+ ">Rule of Law</a></li>".
Proof.
  by rewrite (proj2 (page_target_is_suffix "Rule of Law" eq_refl)).
Defined.

Lemma hyphenate_fixed_iff (N : string) :
  str_replace " " "-" N = N ↔ has_char " " N = false.
Proof.
  change " " with (str1 " "). change "-" with (str1 "-"). split.
  - intros <-. by apply replace1_no_char.
  - apply replace1_absent.
Qed.

Section PageOfRun.

Variable URIRef_raises : yaml → bool.
Variable serialize : graph → string.
Variable format_value : yaml → string.
Variable frontmatter_load : string → result (gmap string yaml).

Let run := generate_hierarchical_skos URIRef_raises serialize format_value
             frontmatter_load.

(** X18. A complete run writes its page under the raw base name, spaces
    kept, while links to a name target the hyphenated name.  When the
    base name has no space the page is written where links to the
    concept point; when it has one, the run leaves that target as it
    was. *)
Theorem page_path_and_link_target (file_path text : string)
    (post : gmap string yaml) (b : built) (w : world) :
  opens w file_path text →
  frontmatter_load text = Ok post →
  build URIRef_raises (filename_of file_path) post = Ok b →
  exports_allowed w (filename_of file_path) →
  ∃ w', run file_path w = (Returned, w')
    ∧ (has_char " " (filename_of file_path) = false →
       files w' !! (str_replace " " "-" (filename_of file_path) +:+ ".html")
       = Some (html_content format_value (filename_of file_path)
                 (serialize (g b)) post b))
    ∧ (has_char " " (filename_of file_path) = true →
       files w' !! (str_replace " " "-" (filename_of file_path) +:+ ".html")
       = files w !! (str_replace " " "-" (filename_of file_path) +:+ ".html")).
Proof.
  intros Hfile Hload Hb Hallowed. eexists. split_and!.
  - unfold run, generate_hierarchical_skos. rewrite Hfile, Hload, Hb.
    by apply export_allowed.
  - intros Hsp. rewrite (proj2 (hyphenate_fixed_iff _) Hsp).
    cbn [files]. by rewrite lookup_insert_eq.
  - intros Hsp. cbn [files].
    rewrite !lookup_insert_ne; [done | |].
    + intros H. apply (f_equal String.length) in H.
      rewrite !length_append in H.
      change " " with (str1 " ") in H. change "-" with (str1 "-") in H.
      rewrite replace1_length in H. simpl in H. lia.
    + intros H. assert (str_replace " " "-" (filename_of file_path)
                        = filename_of file_path) as Heq.
      { revert H. generalize (str_replace " " "-" (filename_of file_path)).
        generalize (filename_of file_path). intros x y.
        revert y. induction x as [|c x IH]; intros [|d y]; simpl; try done.
        - intros H. apply (f_equal String.length) in H. simpl in H.
          rewrite length_append in H. simpl in H. lia.
        - intros H. apply (f_equal String.length) in H. simpl in H.
          rewrite length_append in H. simpl in H. lia.
        - intros [= -> H]. f_equal. by apply IH. }
      apply hyphenate_fixed_iff in Heq. congruence.
Qed.

End PageOfRun.

Lemma page_path_and_link_target_witness :
  ∃ w', generate_hierarchical_skos Sample.URIRef_raises Sample.serialize
          Sample.format_value (Sample.frontmatter_load ∅)
          "Rule of Law.md" (Sample.world_with "Rule of Law.md")
        = (Returned, w')
        ∧ files w' !! "Rule-of-Law.html" = None.
Proof.
  destruct (page_path_and_link_target Sample.URIRef_raises Sample.serialize
              Sample.format_value (Sample.frontmatter_load ∅)
              "Rule of Law.md" "---" ∅
              (Built [ (clean_uri "Rule of Law", RDF_type, SKOS_Concept);
                       (clean_uri "Rule of Law", SKOS_prefLabel,
                        Literal (YStr "Rule of Law") "en") ] [] [] [])
              (Sample.world_with "Rule of Law.md"))
    as (w' & Hrun & _ & Hkept); [reflexivity | reflexivity | reflexivity | by split_and! |].
  exists w'. split; [exact Hrun |].
  etrans; [apply Hkept; reflexivity | reflexivity].
Defined.

(** ** The rest of the page *)

Lemma definition_section_in_page
    (filename_raw jsonld_data definition_text : string)
    (bl nl' rl : list string) (href text : string) :
  pieces_within (definition_section definition_text)
    (html_pieces filename_raw jsonld_data definition_text bl nl' rl href text).
Proof.
  apply (pieces_within_drop 78).
  cbn [drop html_pieces definition_section pieces_at_head]. by split_and!.
Qed.

Lemma external_section_in_page
    (filename_raw jsonld_data definition_text : string)
    (bl nl' rl : list string) (href text : string) :
  pieces_within (external_section href text)
    (html_pieces filename_raw jsonld_data definition_text bl nl' rl href text).
Proof.
  apply (pieces_within_drop 154).
  cbn [drop html_pieces external_section pieces_at_head]. by split_and!.
Qed.

Lemma jsonld_block_in_page
    (filename_raw jsonld_data definition_text : string)
    (bl nl' rl : list string) (href text : string) :
  pieces_within (jsonld_block jsonld_data)
    (html_pieces filename_raw jsonld_data definition_text bl nl' rl href text).
Proof.
  apply (pieces_within_drop 45).
  cbn [drop html_pieces jsonld_block pieces_at_head]. by split_and!.
Qed.

(** X19. In the page, the paragraph under the Definition heading holds
    the placeholder [No definition provided.] when the [definition] key
    is missing, and otherwise the value of the key as an f-string renders
    it: a string as it is, so that an empty definition gives an empty
    paragraph although it adds no definition triple, and any other value,
    null included, as Python formats it.  The external identifier is the
    link [None] to [#] when [exactMatch] is missing or falsy, and a link
    to the value, shown as the value, when it is a non-empty string. *)
Theorem page_definition_and_external (format_value : yaml → string)
    (filename_raw jsonld_data : string) (post : gmap string yaml) (b : built) :
  (post !! "definition" = None →
   occurs_in (join (definition_section "No definition provided."))
     (html_content format_value filename_raw jsonld_data post b))
  ∧ (∀ v, post !! "definition" = Some v →
          occurs_in (join (definition_section (py_str format_value v)))
            (html_content format_value filename_raw jsonld_data post b))
  ∧ (∀ s, py_str format_value (YStr s) = s)
  ∧ (truthy (post_get post "exactMatch") = false →
     occurs_in (join (external_section "#" "None"))
       (html_content format_value filename_raw jsonld_data post b))
  ∧ (∀ s, s ≠ EmptyString → post !! "exactMatch" = Some (YStr s) →
          occurs_in (join (external_section s s))
            (html_content format_value filename_raw jsonld_data post b)).
Proof.
  split_and!.
  - intros H. apply pieces_within_occurs. unfold html_content, post_get_or.
    rewrite H. apply definition_section_in_page.
  - intros v H. apply pieces_within_occurs. unfold html_content, post_get_or.
    rewrite H. apply definition_section_in_page.
  - done.
  - intros H. apply pieces_within_occurs. unfold html_content.
    cbv zeta. rewrite H. apply external_section_in_page.
  - intros s Hs H. apply pieces_within_occurs. unfold html_content.
    cbv zeta. unfold post_get. rewrite H. cbn [default from_option id].
    assert (truthy (YStr s) = true) as -> by (by destruct s).
    apply external_section_in_page.
Qed.

Lemma page_definition_and_external_witness :
  occurs_in (join (definition_section EmptyString))
    (html_content Sample.format_value "Democracy" "{}"
       {[ "definition" := YStr EmptyString ]} (Built [] [] [] []))
  ∧ occurs_in (join (definition_section (Sample.format_value YNull)))
      (html_content Sample.format_value "Democracy" "{}"
         {[ "definition" := YNull ]} (Built [] [] [] []))
  ∧ occurs_in (join (external_section "#" "None"))
      (html_content Sample.format_value "Democracy" "{}"
         {[ "definition" := YStr EmptyString ]} (Built [] [] [] []))
  ∧ occurs_in (join (external_section "http://www.wikidata.org/entity/Q7174"
                       "http://www.wikidata.org/entity/Q7174"))
      (html_content Sample.format_value "Democracy" "{}"
         {[ "exactMatch" := YStr "http://www.wikidata.org/entity/Q7174" ]}
         (Built [] [] [] []))
  ∧ occurs_in (join (definition_section "No definition provided."))
      (html_content Sample.format_value "Democracy" "{}"
         {[ "exactMatch" := YStr "http://www.wikidata.org/entity/Q7174" ]}
         (Built [] [] [] [])).
Proof.
  split_and!.
  - by apply (proj1 (proj2 (page_definition_and_external Sample.format_value
                              "Democracy" "{}" _ _)) (YStr EmptyString)).
  - by apply (proj1 (proj2 (page_definition_and_external Sample.format_value
                              "Democracy" "{}" _ _)) YNull).
  - by apply (proj1 (proj2 (proj2 (proj2 (page_definition_and_external
                                             Sample.format_value "Democracy" "{}" _ _))))).
  - by apply (proj2 (proj2 (proj2 (proj2 (page_definition_and_external
                                             Sample.format_value "Democracy" "{}" _ _))))).
  - by apply (proj1 (page_definition_and_external Sample.format_value
                       "Democracy" "{}" _ _)).
Defined.

Section Outputs.

Variable URIRef_raises : yaml → bool.
Variable serialize : graph → string.
Variable format_value : yaml → string.
Variable frontmatter_load : string → result (gmap string yaml).

Let run := generate_hierarchical_skos URIRef_raises serialize format_value
             frontmatter_load.

(** X20. The two outputs of a complete run agree: the text written to
    the [.jsonld] file is the text that the page written to the [.html]
    file carries inside its [application/ld+json] script block. *)
Theorem page_embeds_exchange_document (file_path text : string)
    (post : gmap string yaml) (b : built) (w : world) :
  opens w file_path text →
  frontmatter_load text = Ok post →
  build URIRef_raises (filename_of file_path) post = Ok b →
  exports_allowed w (filename_of file_path) →
  ∃ w' jsonld page,
    run file_path w = (Returned, w')
    ∧ files w' !! (filename_of file_path +:+ ".jsonld") = Some jsonld
    ∧ files w' !! (filename_of file_path +:+ ".html") = Some page
    ∧ occurs_in (join (jsonld_block jsonld)) page.
Proof.
  intros Hfile Hload Hb Hallowed.
  destruct (run_complete URIRef_raises serialize format_value frontmatter_load
              file_path text post b w Hfile Hload Hb Hallowed)
    as (w' & Hrun & Hjson & Hhtml & _).
  exists w', (serialize (g b)),
    (html_content format_value (filename_of file_path) (serialize (g b)) post b).
  split_and!; [done.. |].
  apply pieces_within_occurs. unfold html_content. apply jsonld_block_in_page.
Qed.



End Outputs.

Lemma page_embeds_exchange_document_witness :
  ∃ w' jsonld page,
    generate_hierarchical_skos Sample.URIRef_raises Sample.serialize
      Sample.format_value (Sample.frontmatter_load {[ "aliases" := YStr "Kid" ]})
      "Child.md" (Sample.world_with "Child.md")
    = (Returned, w')
    ∧ files w' !! "Child.jsonld" = Some jsonld
    ∧ files w' !! "Child.html" = Some page
    ∧ occurs_in (join (jsonld_block jsonld)) page.
Proof.
  destruct (page_embeds_exchange_document Sample.URIRef_raises Sample.serialize
              Sample.format_value
              (Sample.frontmatter_load {[ "aliases" := YStr "Kid" ]})
              "Child.md" "---" {[ "aliases" := YStr "Kid" ]}
              (Built [ (clean_uri "Child", RDF_type, SKOS_Concept);
                       (clean_uri "Child", SKOS_prefLabel, Literal (YStr "Child") "en");
                       (clean_uri "Child", SKOS_altLabel, Literal (YStr "Kid") "en") ]
                 [] [] [])
              (Sample.world_with "Child.md"))
    as (w' & jsonld & page & Hrun & Hjson & Hhtml & Hocc);
    [reflexivity | reflexivity | reflexivity | by split_and! |].
  exists w', jsonld, page. split_and!; [exact Hrun | exact Hjson | exact Hhtml | exact Hocc].
Defined.

